(** * codex_compatibility_sync: the compatibility-table merger

    A shallow embedding of [scripts/codex_compatibility_sync.py] and the
    properties of its table merge.

    Conventions of the model.
    - A Python [str] is a list of characters [str := list ascii]; a
      character is a code point below 256 (Latin-1), which is where the
      tables of [str.strip], [str.lower], [str.splitlines] and [\d] below
      are taken from.
    - A Python [dict] is an association list in insertion order with
      unique keys ([dict_set] overwrites in place, else appends).
    - The file system is seen through what the script reads from it: the
      text of the table file (or its absence) and, for the results
      directory, the outcome of [json.loads] on each file that
      [sorted(results_dir.rglob("*.json"))] yields, in that order: a
      decoded value, [JSONDecodeError], or one of the failures that
      pass through the script's [except] clause.
    - Exceptions are values of [exn]; fallible code returns [result]. *)

From Stdlib Require Import List Ascii String ZArith Lia Bool Arith.
From Stdlib Require Import Sorting.Sorted Sorting.Permutation DecimalString.
Import ListNotations.

Set Warnings "-register-all,-notation-for-abbreviation".

(* ================================================================== *)
(** ** Strings *)

Notation str := (list ascii) (only parsing).

(** A string literal of the source, as a [str]. *)
Notation "$ s" := (list_ascii_of_string s%string)
  (at level 1, s at level 0, format "$ s").

Definition str_eqb (a b : str) : bool :=
  if list_eq_dec ascii_dec a b then true else false.

Definition code (c : ascii) : nat := nat_of_ascii c.

(** [str.isspace] on one character: TAB..CR, FS..US, SPACE, NEL, NBSP. *)
Definition is_space (c : ascii) : bool :=
  let n := code c in
  ((9 <=? n) && (n <=? 13)) || ((28 <=? n) && (n <=? 32))
  || (n =? 133) || (n =? 160).

(** [\d] of [re] on one character. *)
Definition is_digit (c : ascii) : bool :=
  let n := code c in (48 <=? n) && (n <=? 57).

(** Line boundaries of [str.splitlines]: LF, VT, FF, CR, FS, GS, RS, NEL. *)
Definition is_linebreak (c : ascii) : bool :=
  let n := code c in
  ((10 <=? n) && (n <=? 13)) || ((28 <=? n) && (n <=? 30)) || (n =? 133).

(** [str.lower] on one character: A-Z and the Latin-1 capitals. *)
Definition lower_char (c : ascii) : ascii :=
  let n := code c in
  if ((65 <=? n) && (n <=? 90))
     || ((192 <=? n) && (n <=? 222) && negb (n =? 215))
  then ascii_of_nat (n + 32) else c.

Definition lower (s : str) : str := map lower_char s.

(** [s.lstrip(chars)] with the set of characters given as a predicate. *)
Fixpoint lstrip_by (p : ascii -> bool) (s : str) : str :=
  match s with
  | [] => []
  | c :: s' => if p c then lstrip_by p s' else s
  end.

(** [s.rstrip(chars)]. *)
Fixpoint rstrip_by (p : ascii -> bool) (s : str) : str :=
  match s with
  | [] => []
  | c :: s' =>
      match rstrip_by p s' with
      | [] => if p c then [] else [c]
      | r => c :: r
      end
  end.

Definition strip_by (p : ascii -> bool) (s : str) : str :=
  rstrip_by p (lstrip_by p s).

(** [s.strip()]. *)
Definition strip (s : str) : str := strip_by is_space s.

Definition is_char (a c : ascii) : bool := Ascii.eqb a c.

(** [s.startswith(prefix)]. *)
Fixpoint startswith (prefix s : str) : bool :=
  match prefix, s with
  | [], _ => true
  | _ :: _, [] => false
  | a :: p', c :: s' => Ascii.eqb a c && startswith p' s'
  end.

(** [s.split(sep)] for a one-character separator: never empty. *)
Fixpoint split (sep : ascii) (s : str) : list str :=
  match s with
  | [] => [[]]
  | c :: s' =>
      if Ascii.eqb c sep then [] :: split sep s'
      else match split sep s' with
           | [] => [[c]]
           | l :: ls => (c :: l) :: ls
           end
  end.

(** [sep.join(parts)]. *)
Fixpoint join (sep : str) (parts : list str) : str :=
  match parts with
  | [] => []
  | [p] => p
  | p :: ps => p ++ sep ++ join sep ps
  end.

(** [s.splitlines()]: CR LF is one boundary, a final boundary opens no
    further line.  Reading the file with universal newlines first turns
    CR LF and CR into LF, which gives the same lines. *)
Fixpoint splitlines (s : str) : list str :=
  match s with
  | [] => []
  | c :: s' =>
      if is_linebreak c then
        match s' with
        | d :: s'' =>
            if Ascii.eqb c "013" && Ascii.eqb d "010"
            then [] :: splitlines s'' else [] :: splitlines s'
        | [] => [[]]
        end
      else match splitlines s' with
           | [] => [[c]]
           | l :: ls => (c :: l) :: ls
           end
  end.

(* ================================================================== *)
(** ** Regular expressions: [re.fullmatch] by Brzozowski derivatives *)

Inductive regex : Type :=
| Void : regex
| Eps : regex
| Class : (ascii -> bool) -> regex
| Cat : regex -> regex -> regex
| Alt : regex -> regex -> regex
| Star : regex -> regex.

(** [r+] *)
Definition Plus (r : regex) : regex := Cat r (Star r).

Fixpoint nullable (r : regex) : bool :=
  match r with
  | Void => false
  | Eps => true
  | Class _ => false
  | Cat a b => nullable a && nullable b
  | Alt a b => nullable a || nullable b
  | Star _ => true
  end.

Fixpoint deriv (c : ascii) (r : regex) : regex :=
  match r with
  | Void => Void
  | Eps => Void
  | Class p => if p c then Eps else Void
  | Cat a b =>
      if nullable a then Alt (Cat (deriv c a) b) (deriv c b)
      else Cat (deriv c a) b
  | Alt a b => Alt (deriv c a) (deriv c b)
  | Star a => Cat (deriv c a) (Star a)
  end.

(** [re.fullmatch(r, s) is not None]. *)
Fixpoint fullmatch (r : regex) (s : str) : bool :=
  match s with
  | [] => nullable r
  | c :: s' => fullmatch (deriv c r) s'
  end.

(** [r"\d+(?:\.\d+)+"] *)
Definition VERSION_RE : regex :=
  Cat (Plus (Class is_digit))
      (Plus (Cat (Class (is_char ".")) (Plus (Class is_digit)))).

(** [r"-+"] *)
Definition DASHES_RE : regex := Plus (Class (is_char "-")).

(* ================================================================== *)
(** ** Exceptions and results *)

Inductive exn : Type :=
| AttributeError : exn
| ValueError : exn
| SystemExit : str -> exn
| UnicodeDecodeError : exn
| RecursionError : exn
| OSError : exn.

Inductive result (A : Type) : Type :=
| Ok : A -> result A
| Raise : exn -> result A.

Arguments Ok {A} _.
Arguments Raise {A} _.

Definition bind {A B : Type} (m : result A) (k : A -> result B) : result B :=
  match m with
  | Ok a => k a
  | Raise e => Raise e
  end.

Notation "x <- m ;; k" := (bind m (fun x => k))
  (at level 61, m at next level, right associativity).

(** A [for] loop whose body may raise. *)
Fixpoint foldM {A B : Type} (f : A -> B -> result A) (l : list B) (a : A)
  : result A :=
  match l with
  | [] => Ok a
  | b :: l' => a' <- f a b ;; foldM f l' a'
  end.

(** A comprehension whose element expression may raise. *)
Fixpoint mapM {A B : Type} (f : A -> result B) (l : list A)
  : result (list B) :=
  match l with
  | [] => Ok []
  | a :: l' => b <- f a ;; bs <- mapM f l' ;; Ok (b :: bs)
  end.

(* ================================================================== *)
(** ** Dictionaries *)

Notation dict V := (list (str * V)) (only parsing).

Fixpoint dict_get {V : Type} (k : str) (d : dict V) : option V :=
  match d with
  | [] => None
  | (k', v) :: d' => if str_eqb k k' then Some v else dict_get k d'
  end.

(** [d.get(k, default)] *)
Definition dict_get_or {V : Type} (k : str) (default : V) (d : dict V) : V :=
  match dict_get k d with
  | Some v => v
  | None => default
  end.

(** [d[k] = v] *)
Fixpoint dict_set {V : Type} (k : str) (v : V) (d : dict V) : dict V :=
  match d with
  | [] => [(k, v)]
  | (k', v') :: d' =>
      if str_eqb k k' then (k, v) :: d' else (k', v') :: dict_set k v d'
  end.

Definition dict_keys {V : Type} (d : dict V) : list str := map fst d.

(** [d.update(other)] *)
Definition dict_update {V : Type} (d other : dict V) : dict V :=
  fold_left (fun acc kv => dict_set (fst kv) (snd kv) acc) other d.

(** [{k: f(k) for k in keys}] *)
Definition dict_comp {V : Type} (f : str -> V) (keys : list str) : dict V :=
  fold_left (fun acc k => dict_set k (f k) acc) keys [].

(** [x or default] on strings. *)
Definition or_else (x default : str) : str :=
  match x with
  | [] => default
  | _ => x
  end.

(** [x in xs] on strings. *)
Definition str_in (x : str) (xs : list str) : bool := existsb (str_eqb x) xs.

(* ================================================================== *)
(** ** Values decoded by [json.loads] and their [str()] *)

(** Numbers with a fraction or an exponent decode to floats, whose
    rendering is not modelled: the numbers of the model are integers
    (of at most 4300 digits, or [json.loads] has raised).
    [JObj] carries the items of the decoded [dict], in its order. *)
Inductive json : Type :=
| JNull : json
| JBool : bool -> json
| JInt : Z -> json
| JStr : str -> json
| JArr : list json -> json
| JObj : list (str * json) -> json.

Definition digit_char (n : nat) : ascii := ascii_of_nat (48 + n mod 10).

Definition hex_char (n : nat) : ascii :=
  let d := n mod 16 in
  if d <? 10 then ascii_of_nat (48 + d) else ascii_of_nat (87 + d).

(** [str.isprintable] on one character. *)
Definition is_printable (c : ascii) : bool :=
  let n := code c in
  ((32 <=? n) && (n <=? 126)) || ((161 <=? n) && negb (n =? 173)).

Definition backslash : ascii := "092".
Definition squote : ascii := "039".
Definition dquote : ascii := "034".

Definition repr_char (quote c : ascii) : str :=
  let n := code c in
  if Ascii.eqb c quote || Ascii.eqb c backslash then [backslash; c]
  else if n =? 9 then [backslash; "t"%char]
  else if n =? 10 then [backslash; "n"%char]
  else if n =? 13 then [backslash; "r"%char]
  else if is_printable c then [c]
  else [backslash; "x"%char; hex_char (n / 16); hex_char n].

(** [repr(s)] of a string. *)
Definition repr_str (s : str) : str :=
  let quote : ascii :=
    if existsb (Ascii.eqb squote) s && negb (existsb (Ascii.eqb dquote) s)
    then dquote else squote in
  quote :: flat_map (repr_char quote) s ++ [quote].

(** [str(n)] of an integer. *)
Definition repr_int (z : Z) : str :=
  match z with
  | Z0 => $"0"
  | Zpos p => list_ascii_of_string (DecimalString.NilEmpty.string_of_uint (Pos.to_uint p))
  | Zneg p => "-"%char :: list_ascii_of_string (DecimalString.NilEmpty.string_of_uint (Pos.to_uint p))
  end.

Fixpoint py_repr (j : json) : str :=
  match j with
  | JNull => $"None"
  | JBool true => $"True"
  | JBool false => $"False"
  | JInt z => repr_int z
  | JStr s => repr_str s
  | JArr l => $"[" ++ join $", " (map py_repr l) ++ $"]"
  | JObj items =>
      $"{" ++ join $", "
                (map (fun kv => match kv with
                                | (k, v) => repr_str k ++ $": " ++ py_repr v
                                end) items)
           ++ $"}"
  end.

(** [str(x)] *)
Definition py_str (j : json) : str :=
  match j with
  | JStr s => s
  | _ => py_repr j
  end.

(** The whitespace that [int] skips around the number: TAB..CR and
    SPACE, and NEL and NBSP, which it first turns into spaces.  FS..US
    are not skipped. *)
Definition is_int_space (c : ascii) : bool :=
  let n := code c in
  ((9 <=? n) && (n <=? 13)) || (n =? 32) || (n =? 133) || (n =? 160).

(** [sys.int_info.default_max_str_digits] *)
Definition MAX_STR_DIGITS : Z := 4300.

(** The digits and single underscores of an integer literal. *)
Fixpoint int_digits (acc : Z) (after_digit : bool) (s : str) : option Z :=
  match s with
  | [] => if after_digit then Some acc else None
  | c :: s' =>
      if is_digit c
      then int_digits (10 * acc + Z.of_nat (code c - 48)) true s'
      else if Ascii.eqb c "_" && after_digit then int_digits acc false s'
      else None
  end.

(** The value of the literal, unless it is ill-formed or has more
    digits (underscores apart) than the limit. *)
Definition int_literal (s : str) : option Z :=
  match int_digits 0 false s with
  | Some z =>
      if (MAX_STR_DIGITS <? Z.of_nat (List.length (filter is_digit s)))%Z
      then None else Some z
  | None => None
  end.

(** [int(s)] in base ten: surrounding whitespace, optional sign,
    digits with single underscores between them; [ValueError] on
    anything else and on more than 4300 digits. *)
Definition py_int (s : str) : result Z :=
  let r :=
    match strip_by is_int_space s with
    | c :: t =>
        if Ascii.eqb c "+" then int_literal t
        else if Ascii.eqb c "-" then option_map Z.opp (int_literal t)
        else int_literal (c :: t)
    | [] => None
    end in
  match r with
  | Some z => Ok z
  | None => Raise ValueError
  end.

(* ================================================================== *)
(** ** Tuples of integers and [sorted(..., reverse=True)] *)

(** [a < b] on tuples of integers. *)
Fixpoint tuple_ltb (a b : list Z) : bool :=
  match a, b with
  | [], [] => false
  | [], _ :: _ => true
  | _ :: _, [] => false
  | x :: a', y :: b' =>
      if (x <? y)%Z then true
      else if (y <? x)%Z then false
      else tuple_ltb a' b'
  end.

(** One insertion into a list in descending key order; an element stays
    ahead of the equal keys that followed it (the sort is stable). *)
Fixpoint insert_desc {A : Type} (x : list Z * A) (l : list (list Z * A))
  : list (list Z * A) :=
  match l with
  | [] => [x]
  | y :: l' =>
      if tuple_ltb (fst x) (fst y) then y :: insert_desc x l' else x :: l
  end.

(** The decorated list sorted by key, largest first. *)
Definition sorted_desc {A : Type} (l : list (list Z * A))
  : list (list Z * A) :=
  fold_right insert_desc [] l.

(* ================================================================== *)
(** ** The script *)

Definition PLATFORMS : list str :=
  [$"linux"; $"mac"; $"windows"; $"rockylinux8"; $"ubuntu20.04"].

Definition HEADER : list str :=
  [$"| Codex version | linux | mac | windows | rockylinux8 | ubuntu20.04 | last_tested_utc |";
   $"| --- | --- | --- | --- | --- | --- | --- |"].

Definition normalize_version (v : str) : str :=
  lstrip_by (is_char "v") (strip v).

(** [re.fullmatch(r"\d+(?:\.\d+)+", version)] *)
Definition is_version (version : str) : bool := fullmatch VERSION_RE version.

(** A row of the table: platform -> status, and [last_tested_utc]. *)
Notation row := (dict str) (only parsing).
Notation table := (dict row) (only parsing).

(** [{columns[i]: parts[i] for i in range(min(len(columns), len(parts)))}] *)
Definition cells (columns parts : list str) : dict str :=
  fold_left (fun acc kv => dict_set (fst kv) (snd kv) acc)
            (combine columns parts) [].

(** Lines 46-47 of [parse_table]. *)
Definition parsed_row (r : dict str) : row :=
  dict_set $"last_tested_utc" (strip (dict_get_or $"last_tested_utc" [] r))
    (dict_comp
       (fun platform =>
          or_else (lower (strip (dict_get_or platform [] r))) $"not-run")
       PLATFORMS).

(** [[part.strip() for part in line.strip().strip("|").split("|")]] *)
Definition line_parts (line : str) : list str :=
  map strip (split "|" (strip_by (is_char "|") (strip line))).

(** [normalize_version(row.get("Codex version", ""))] *)
Definition row_version (r : dict str) : str :=
  normalize_version (dict_get_or $"Codex version" [] r).

(** The body of the loop of [parse_table] on the state (columns, rows). *)
Definition parse_line (st : list str * table) (line : str)
  : list str * table :=
  let (columns, rows) := st in
  if negb (startswith $"|" line) then st
  else
    let parts := line_parts line in
    if List.length parts <? 2 then st
    else
      match columns with
      | [] => (parts, rows)
      | _ :: _ =>
          if forallb (fun part => fullmatch DASHES_RE (or_else part [])) parts
          then st
          else
            let r := cells columns parts in
            let version := row_version r in
            if negb (is_version version) then st
            else (columns, dict_set version (parsed_row r) rows)
      end.

(** [parse_table]: [None] is a table file that does not exist. *)
Definition parse_table (table_file : option str) : table :=
  match table_file with
  | None => []
  | Some text => snd (fold_left parse_line (splitlines text) ([], []))
  end.

(** The failures of [json.loads(path.read_text(encoding="utf-8"))]
    that [except json.JSONDecodeError] does not catch. *)
Inductive read_failure : Type :=
| NotUTF8 : read_failure       (* read_text: the bytes are not UTF-8 *)
| HugeInteger : read_failure   (* json.loads: an integer of over 4300 digits *)
| TooDeep : read_failure       (* json.loads: nesting beyond the recursion limit *)
| IOFailure : read_failure.    (* read_text: a directory, no permission, ... *)

Definition failure_exn (f : read_failure) : exn :=
  match f with
  | NotUTF8 => UnicodeDecodeError
  | HugeInteger => ValueError
  | TooDeep => RecursionError
  | IOFailure => OSError
  end.

(** What [json.loads(path.read_text(encoding="utf-8"))] gives for one
    file. *)
Inductive file_content : Type :=
| Malformed : file_content              (* json.JSONDecodeError *)
| Failed : read_failure -> file_content
| Parsed : json -> file_content.

(** Lines 73-75 of [load_results]. *)
Definition normalize_status (status : json) : str :=
  let normalized_status := lower (strip (py_str status)) in
  if negb (str_in normalized_status [$"pass"; $"fail"; $"not-run"])
  then $"fail" else normalized_status.

(** The body of the inner loop of [load_results]; the keys of a decoded
    object are strings, so [str(version)] is [version]. *)
Definition load_entry (platform : str) (updates : table)
           (item : str * json) : table :=
  let (version, status) := item in
  let normalized := normalize_version (py_str (JStr version)) in
  if negb (is_version normalized) then updates
  else
    dict_set normalized
             (dict_set platform (normalize_status status)
                       (dict_get_or normalized [] updates))
             updates.

(** The body of the outer loop of [load_results].  Only
    [JSONDecodeError] is caught; [payload.get] on a value that is not an
    object raises [AttributeError]. *)
Definition load_file (updates : table) (file : file_content)
  : result table :=
  match file with
  | Malformed => Ok updates
  | Failed f => Raise (failure_exn f)
  | Parsed (JObj payload) =>
      let platform := strip (py_str (dict_get_or $"platform" (JStr []) payload)) in
      if negb (str_in platform PLATFORMS) then Ok updates
      else
        match dict_get_or $"results" (JObj []) payload with
        | JObj results => Ok (fold_left (load_entry platform) results updates)
        | _ => Ok updates
        end
  | Parsed _ => Raise AttributeError
  end.

(** [load_results]: [None] is a results directory that does not exist. *)
Definition load_results (results_dir : option (list file_content))
  : result table :=
  match results_dir with
  | None => Ok []
  | Some files => foldM load_file files []
  end.

Definition version_sort_key (version : str) : result (list Z) :=
  mapM py_int (split "." version).

(** One line of the table. *)
Definition table_line (version : str) (r : row) : str :=
  $"| " ++ version
  ++ $" | " ++ dict_get_or $"linux" $"not-run" r
  ++ $" | " ++ dict_get_or $"mac" $"not-run" r
  ++ $" | " ++ dict_get_or $"windows" $"not-run" r
  ++ $" | " ++ dict_get_or $"rockylinux8" $"not-run" r
  ++ $" | " ++ dict_get_or $"ubuntu20.04" $"not-run" r
  ++ $" | " ++ dict_get_or $"last_tested_utc" [] r
  ++ $" |".

Definition PREAMBLE : list str :=
  [$"# Codex Compatibility";
   [];
   $"Auto-updated by `.github/workflows/codex-release-monitor.yml`.";
   []].

(** [sorted(rows.keys(), key=version_sort_key, reverse=True)]: the keys
    are computed first, and a key that raises ends the sort. *)
Definition sorted_versions (rows : table) : result (list str) :=
  keyed <- mapM (fun version =>
                   key <- version_sort_key version ;; Ok (key, version))
                (dict_keys rows) ;;
  Ok (map snd (sorted_desc keyed)).

Definition LF : str := ["010"%char].

(** [write_table]: the text written to the table file.  [rows[version]]
    is read at a key of [rows]. *)
Definition write_table (rows : table) : result str :=
  order <- sorted_versions rows ;;
  let out :=
    PREAMBLE ++ HEADER
    ++ map (fun version => table_line version (dict_get_or version [] rows))
           order in
  Ok (join LF out ++ LF).

(** The clock: [datetime.now(timezone.utc)], whose fields are in the
    ranges of [datetime] (year 1..9999, month 1..12, ...). *)
Record datetime : Type := {
  year : nat; month : nat; day : nat;
  hour : nat; minute : nat; second : nat
}.

Definition pad2 (n : nat) : str := [digit_char (n / 10); digit_char n].
Definition pad4 (n : nat) : str :=
  [digit_char (n / 1000); digit_char (n / 100); digit_char (n / 10);
   digit_char n].

(** [now.strftime("%Y-%m-%dT%H:%M:%SZ")] *)
Definition strftime (now : datetime) : str :=
  pad4 (year now) ++ $"-" ++ pad2 (month now) ++ $"-" ++ pad2 (day now)
  ++ $"T" ++ pad2 (hour now) ++ $":" ++ pad2 (minute now)
  ++ $":" ++ pad2 (second now) ++ $"Z".

(** Lines 125-128 of [main]. *)
Definition merge_row (rows updates : table) (version : str) (now : datetime)
  : row :=
  let base := dict_get_or version [] rows in
  let merged :=
    dict_comp (fun platform => dict_get_or platform $"not-run" base)
              PLATFORMS in
  let merged := dict_update merged (dict_get_or version [] updates) in
  dict_set $"last_tested_utc" (strftime now) merged.

(** How the process ends. *)
Inductive termination : Type :=
| Returned : Z -> termination
| Raised : exn -> termination.

(** The exit status of the interpreter: [raise SystemExit(main())] with
    the returned code, 1 for [SystemExit(message)] and for an uncaught
    exception. *)
Definition exit_status (t : termination) : Z :=
  match t with
  | Returned c => c
  | Raised _ => 1
  end.

(** What the interpreter prints for [SystemExit(message)]. *)
Definition exit_message (t : termination) : option str :=
  match t with
  | Raised (SystemExit msg) => Some msg
  | _ => None
  end.

(** The rows that [main] hands to [write_table] (lines 122 and 125-129),
    given the loaded updates. *)
Definition merged_rows (version_arg : str) (table_file : option str)
           (updates : table) (now : datetime) : table :=
  let version := normalize_version version_arg in
  let rows := parse_table table_file in
  dict_set version (merge_row rows updates version now) rows.

(** [main] on the arguments, the table file, the results directory and
    the clock: how it ends, and the table file afterwards. *)
Definition main (version_arg : str) (table_file : option str)
           (results_dir : option (list file_content)) (now : datetime)
  : termination * option str :=
  let version := normalize_version version_arg in
  if negb (is_version version)
  then (Raised (SystemExit ($"Invalid version: " ++ version_arg)), table_file)
  else
    match load_results results_dir with
    | Raise e => (Raised e, table_file)
    | Ok updates =>
        match write_table (merged_rows version_arg table_file updates now) with
        | Raise e => (Raised e, table_file)
        | Ok text => (Returned 0, Some text)
        end
    end.

(* ================================================================== *)
(** ** Predicates of the properties *)

(** The language of a regular expression. *)
Inductive lang : regex -> str -> Prop :=
| lang_eps : lang Eps []
| lang_class p c : p c = true -> lang (Class p) [c]
| lang_cat a b s t : lang a s -> lang b t -> lang (Cat a b) (s ++ t)
| lang_alt_l a b s : lang a s -> lang (Alt a b) s
| lang_alt_r a b s : lang b s -> lang (Alt a b) s
| lang_star_nil a : lang (Star a) []
| lang_star_app a s t : lang a s -> lang (Star a) t -> lang (Star a) (s ++ t).

(** Every character of a word of [r] passes one of the classes of [r]. *)
Fixpoint classes_within (q : ascii -> bool) (r : regex) : Prop :=
  match r with
  | Void | Eps => True
  | Class p => forall c, p c = true -> q c = true
  | Cat a b | Alt a b => classes_within q a /\ classes_within q b
  | Star a => classes_within q a
  end.

(** A component of a version: one digit or more. *)
Definition digits (p : str) : Prop := p <> [] /\ forallb is_digit p = true.

(** The characters of a version. *)
Definition version_char (c : ascii) : bool := is_digit c || is_char "." c.

Definition versions_ok (t : table) : Prop :=
  NoDup (dict_keys t) /\ Forall (fun k => is_version k = true) (dict_keys t).

(** [a >= b] on tuples *)
Definition tuple_ge (a b : list Z) : Prop := tuple_ltb a b = false.

(** [x >= y] on the keys of decorated items. *)
Definition key_ge {A : Type} (x y : list Z * A) : Prop :=
  tuple_ge (fst x) (fst y).

(** [b] does not sort above [a]: [version_sort_key(a) >= version_sort_key(b)]. *)
Definition version_ge (a b : str) : Prop :=
  exists ka kb,
    version_sort_key a = Ok ka /\ version_sort_key b = Ok kb
    /\ tuple_ge ka kb.

(** The statuses that a row can take from an artifact. *)
Definition STATUSES : list str := [$"pass"; $"fail"; $"not-run"].

(** The rows of the updates: platforms only, each once, with a status. *)
Definition platform_row (r : row) : Prop :=
  NoDup (dict_keys r)
  /\ Forall (fun ps => In (fst ps) PLATFORMS /\ In (snd ps) STATUSES) r.

Definition statuses_ok (updates : table) : Prop :=
  Forall (fun kv => platform_row (snd kv)) updates.




(** The row of five statuses and a timestamp. *)
Definition mk_row (linux mac windows rockylinux8 ubuntu last_tested : str)
  : row :=
  [($"linux", linux); ($"mac", mac); ($"windows", windows);
   ($"rockylinux8", rockylinux8); ($"ubuntu20.04", ubuntu);
   ($"last_tested_utc", last_tested)].

(** The status of a platform in the merged row: the loaded one if there
    is one, else the one of the existing row, else "not-run". *)
Definition merged_status (base updated : row) (platform : str) : str :=
  match dict_get platform updated with
  | Some status => status
  | None => dict_get_or platform $"not-run" base
  end.

Definition no_break (l : str) : Prop :=
  Forall (fun c => is_linebreak c = false) l.

(** The characters of a cell: no bar, no line boundary. *)
Definition cell_char (c : ascii) : bool :=
  negb (Ascii.eqb c "|") && negb (is_linebreak c).

(** A cell that is written and read back as it is. *)
Definition clean (f : str) : Prop :=
  strip f = f /\ forallb cell_char f = true.

(** A cell between its two spaces. *)
Definition padded (f : str) : str := " "%char :: f ++ [" "%char].

Definition BAR : str := ["|"%char].

(** A line of the table, as the cells between bars. *)
Definition bar_line (fields : list str) : str :=
  "|"%char :: join BAR (map padded fields) ++ BAR.

Definition clean_status (s : str) : Prop :=
  clean s /\ lower s = s /\ s <> [].

Definition clean_row (r : row) : Prop :=
  exists s1 s2 s3 s4 s5 ts,
    r = mk_row s1 s2 s3 s4 s5 ts
    /\ clean_status s1 /\ clean_status s2 /\ clean_status s3
    /\ clean_status s4 /\ clean_status s5 /\ clean ts.

Definition clean_rows (t : table) : Prop :=
  Forall (fun kv => clean_row (snd kv)) t.

Definition cell_chars (f : str) : Prop := forallb cell_char f = true.

Definition ts_char (c : ascii) : bool :=
  is_digit c || is_char "-" c || is_char "T" c || is_char ":" c
  || is_char "Z" c.

(** The columns that [parse_table] reads off the header that
    [write_table] writes. *)
Definition COLUMNS : list str :=
  [$"Codex version"; $"linux"; $"mac"; $"windows"; $"rockylinux8";
   $"ubuntu20.04"; $"last_tested_utc"].

Definition written_cells (version s1 s2 s3 s4 s5 ts : str) : dict str :=
  [($"Codex version", version); ($"linux", s1); ($"mac", s2);
   ($"windows", s3); ($"rockylinux8", s4); ($"ubuntu20.04", s5);
   ($"last_tested_utc", ts)].

(** What a line of the table adds to the rows once the columns are
    known: its version and its row, or nothing. *)
Definition row_of_line (columns : list str) (line : str)
  : option (str * row) :=
  let parts := line_parts line in
  let r := cells columns parts in
  if startswith $"|" line
     && negb (List.length parts <? 2)
     && negb (forallb (fun part => fullmatch DASHES_RE (or_else part [])) parts)
     && is_version (row_version r)
  then Some (row_version r, parsed_row r)
  else None.

(** The rows after one more line. *)
Definition add_line (columns : list str) (rows : table) (line : str)
  : table :=
  match row_of_line columns line with
  | Some (version, r) => dict_set version r rows
  | None => rows
  end.

(* ================================================================== *)
(** * Properties *)

(** ** Strings and characters *)

Lemma str_eqb_eq (a b : str) : str_eqb a b = true <-> a = b.
Proof.
  unfold str_eqb. destruct (list_eq_dec ascii_dec a b); split; congruence.
Qed.

Lemma str_eqb_refl (a : str) : str_eqb a a = true.
Proof. now apply str_eqb_eq. Qed.

Lemma str_eqb_neq (a b : str) : str_eqb a b = false <-> a <> b.
Proof.
  unfold str_eqb. destruct (list_eq_dec ascii_dec a b); split; congruence.
Qed.

Lemma str_in_In (x : str) (xs : list str) : str_in x xs = true <-> In x xs.
Proof.
  unfold str_in. rewrite existsb_exists. split.
  - intros (y & Hy & E). apply str_eqb_eq in E. now subst.
  - intros H. exists x. split; [assumption | apply str_eqb_refl].
Qed.

(** A statement about every character is checked on the 256 of them. *)
Lemma all_chars (P : ascii -> bool) :
  forallb P (map ascii_of_nat (seq 0 256)) = true -> forall c, P c = true.
Proof.
  intros H c. rewrite forallb_forall in H. apply H.
  rewrite <- (ascii_nat_embedding c). apply in_map. apply in_seq.
  pose proof (nat_ascii_bounded c). lia.
Qed.

Ltac by_chars c :=
  revert c; apply all_chars; vm_compute; reflexivity.

Lemma lower_char_space (c : ascii) : is_space (lower_char c) = is_space c.
Proof.
  assert (H : Bool.eqb (is_space (lower_char c)) (is_space c) = true)
    by (by_chars c).
  now apply Bool.eqb_prop.
Qed.

Lemma lower_char_idem (c : ascii) : lower_char (lower_char c) = lower_char c.
Proof.
  assert (H : Ascii.eqb (lower_char (lower_char c)) (lower_char c) = true)
    by (by_chars c).
  now apply Ascii.eqb_eq.
Qed.

Lemma lower_idem (s : str) : lower (lower s) = lower s.
Proof.
  unfold lower. rewrite map_map. apply map_ext. apply lower_char_idem.
Qed.

(** *** Stripping *)

Lemma lstrip_by_none (p : ascii -> bool) (s : str) :
  (forall c t, s = c :: t -> p c = false) -> lstrip_by p s = s.
Proof.
  destruct s as [|c t]; [reflexivity|]. intros H. simpl.
  now rewrite (H c t eq_refl).
Qed.

Lemma lstrip_by_idem (p : ascii -> bool) (s : str) :
  lstrip_by p (lstrip_by p s) = lstrip_by p s.
Proof.
  induction s as [|c t IH]; [reflexivity|]. simpl.
  destruct (p c) eqn:E; [assumption|]. simpl. now rewrite E.
Qed.

Lemma lstrip_by_head (p : ascii -> bool) (s : str) c t :
  lstrip_by p s = c :: t -> p c = false.
Proof.
  induction s as [|a s IH]; simpl; [discriminate|].
  destruct (p a) eqn:E; [assumption|]. intros H. now inversion H; subst.
Qed.

Lemma rstrip_by_app_last (p : ascii -> bool) (s : str) (c : ascii) :
  p c = false -> rstrip_by p (s ++ [c]) = s ++ [c].
Proof.
  intros Hc. induction s as [|a s IH]; simpl.
  - now rewrite Hc.
  - rewrite IH. destruct (s ++ [c]) eqn:E; [|reflexivity].
    now destruct s.
Qed.

Lemma rstrip_by_idem (p : ascii -> bool) (s : str) :
  rstrip_by p (rstrip_by p s) = rstrip_by p s.
Proof.
  induction s as [|a s IH]; [reflexivity|]. simpl.
  destruct (rstrip_by p s) as [|b r] eqn:E.
  - destruct (p a) eqn:Ea; simpl; [reflexivity | now rewrite Ea].
  - simpl in *. rewrite IH. reflexivity.
Qed.

(** What [rstrip] leaves begins as its argument does. *)
Lemma rstrip_by_head (p : ascii -> bool) (s : str) c t :
  rstrip_by p s = c :: t -> exists t', s = c :: t'.
Proof.
  destruct s as [|a s]; simpl; [discriminate|].
  destruct (rstrip_by p s); [destruct (p a)|]; intros H;
    inversion H; subst; eauto.
Qed.

Lemma rstrip_lstrip_fix (p : ascii -> bool) (s : str) :
  lstrip_by p (rstrip_by p (lstrip_by p s)) = rstrip_by p (lstrip_by p s).
Proof.
  apply lstrip_by_none. intros c t H.
  apply rstrip_by_head in H. destruct H as [t' H].
  now apply lstrip_by_head in H.
Qed.

Lemma strip_by_idem (p : ascii -> bool) (s : str) :
  strip_by p (strip_by p s) = strip_by p s.
Proof.
  unfold strip_by. rewrite rstrip_lstrip_fix. apply rstrip_by_idem.
Qed.

Lemma strip_idem (s : str) : strip (strip s) = strip s.
Proof. apply strip_by_idem. Qed.

Lemma rstrip_by_none (p : ascii -> bool) (s : str) :
  Forall (fun c => p c = false) s -> rstrip_by p s = s.
Proof.
  induction 1 as [|a s Ha Hs IH]; [reflexivity|]. simpl. rewrite IH.
  destruct s; [now rewrite Ha | reflexivity].
Qed.

Lemma strip_by_none (p : ascii -> bool) (s : str) :
  Forall (fun c => p c = false) s -> strip_by p s = s.
Proof.
  intros H. unfold strip_by. rewrite lstrip_by_none.
  - now apply rstrip_by_none.
  - intros c t ->. now inversion H.
Qed.

Lemma lstrip_by_map (p : ascii -> bool) (f : ascii -> ascii) (s : str) :
  (forall c, p (f c) = p c) ->
  lstrip_by p (map f s) = map f (lstrip_by p s).
Proof.
  intros H. induction s as [|a s IH]; [reflexivity|]. simpl.
  rewrite H. now destruct (p a).
Qed.

Lemma rstrip_by_map (p : ascii -> bool) (f : ascii -> ascii) (s : str) :
  (forall c, p (f c) = p c) ->
  rstrip_by p (map f s) = map f (rstrip_by p s).
Proof.
  intros H. induction s as [|a s IH]; [reflexivity|]. simpl.
  rewrite IH, H. destruct (rstrip_by p s); simpl; [|reflexivity].
  now destruct (p a).
Qed.

Lemma strip_lower (s : str) : strip (lower s) = lower (strip s).
Proof.
  unfold strip, strip_by, lower.
  rewrite lstrip_by_map by apply lower_char_space.
  now rewrite rstrip_by_map by apply lower_char_space.
Qed.

(** ** Regular expressions *)

#[local] Hint Constructors lang : core.

Lemma nullable_lang (r : regex) : nullable r = true <-> lang r [].
Proof.
  induction r as [| |p|a IHa b IHb|a IHa b IHb|a IHa]; simpl.
  - split; [discriminate | inversion 1].
  - split; auto.
  - split; [discriminate | inversion 1].
  - rewrite andb_true_iff, IHa, IHb. split.
    + intros [Ha Hb]. change (@nil ascii) with (@nil ascii ++ []). auto.
    + inversion 1 as [| |a' b' s t Hs Ht E1 E2| | | |]; subst.
      apply app_eq_nil in E2. destruct E2; subst. auto.
  - rewrite orb_true_iff, IHa, IHb. split.
    + intros [H|H]; auto.
    + inversion 1; subst; auto.
  - split; auto.
Qed.

(** A non-empty word of [a*] starts with a non-empty word of [a]. *)
Lemma lang_star_cons (a : regex) (c : ascii) (s : str) :
  lang (Star a) (c :: s) ->
  exists s1 s2, s = s1 ++ s2 /\ lang a (c :: s1) /\ lang (Star a) s2.
Proof.
  intros H. remember (Star a) as r eqn:Er. remember (c :: s) as w eqn:Ew.
  revert Er Ew. induction H as [| | | | | |a' u v Hu _ Hv IHv];
    try discriminate; intros Er Ew.
  inversion Er; subst a'. destruct u as [|c' u].
  - simpl in Ew. now apply IHv.
  - simpl in Ew. inversion Ew; subst. exists u, v. auto.
Qed.

Lemma deriv_lang (r : regex) (c : ascii) (s : str) :
  lang (deriv c r) s <-> lang r (c :: s).
Proof.
  revert s. induction r as [| |p|a IHa b IHb|a IHa b IHb|a IHa];
    intros s; simpl.
  - split; inversion 1.
  - split; inversion 1.
  - destruct (p c) eqn:E; split; inversion 1; subst; auto; congruence.
  - assert (Hcat : lang (Cat (deriv c a) b) s -> lang (Cat a b) (c :: s)).
    { inversion 1 as [| |a' b' u v Hu Hv| | | |]; subst.
      apply IHa in Hu. change (c :: u ++ v) with ((c :: u) ++ v). auto. }
    assert (Hinv : lang (Cat a b) (c :: s) ->
                   lang (Cat (deriv c a) b) s
                   \/ (lang a [] /\ lang (deriv c b) s)).
    { inversion 1 as [| |a' b' u v Hu Hv E1 E2| | | |]; subst.
      destruct u as [|c' u]; simpl in E2.
      - subst v. right. split; [assumption | now apply IHb].
      - inversion E2; subst. left. apply lang_cat; [now apply IHa | assumption]. }
    destruct (nullable a) eqn:Na.
    + split.
      * inversion 1; subst; auto.
        apply IHb in H3. apply nullable_lang in Na.
        change (c :: s) with ([] ++ c :: s). auto.
      * intros H. destruct (Hinv H) as [H1|[_ H1]]; auto.
    + split; [assumption|].
      intros H. destruct (Hinv H) as [H1|[H1 _]]; [assumption|].
      apply nullable_lang in H1. congruence.
  - split; inversion 1; subst.
    + apply lang_alt_l. now apply IHa.
    + apply lang_alt_r. now apply IHb.
    + apply lang_alt_l. now apply IHa.
    + apply lang_alt_r. now apply IHb.
  - split.
    + inversion 1 as [| |a' b' u v Hu Hv| | | |]; subst.
      apply IHa in Hu. change (c :: u ++ v) with ((c :: u) ++ v). auto.
    + intros H. apply lang_star_cons in H.
      destruct H as (s1 & s2 & -> & H1 & H2).
      apply lang_cat; [now apply IHa | assumption].
Qed.

(** [fullmatch] decides the language. *)
Lemma fullmatch_lang (r : regex) (s : str) :
  fullmatch r s = true <-> lang r s.
Proof.
  revert r. induction s as [|c s IH]; intros r; simpl.
  - apply nullable_lang.
  - rewrite IH. apply deriv_lang.
Qed.

Lemma lang_star_class (p : ascii -> bool) (s : str) :
  lang (Star (Class p)) s <-> forallb p s = true.
Proof.
  split.
  - intros H. remember (Star (Class p)) as r eqn:Er. revert Er.
    induction H as [| | | | | |a u v Hu _ Hv IHv]; try discriminate;
      intros Er; [reflexivity|].
    inversion Er; subst a. inversion Hu; subst. simpl.
    rewrite IHv by reflexivity. now rewrite H0.
  - induction s as [|c s IH]; simpl; [auto|].
    intros H. apply andb_prop in H. destruct H as [Hc Hs].
    change (c :: s) with ([c] ++ s). auto.
Qed.

Lemma lang_plus_class (p : ascii -> bool) (s : str) :
  lang (Plus (Class p)) s <-> s <> [] /\ forallb p s = true.
Proof.
  unfold Plus. split.
  - inversion 1 as [| |a b u v Hu Hv| | | |]; subst.
    inversion Hu; subst. apply lang_star_class in Hv. simpl.
    split; [discriminate|]. now rewrite H1, Hv.
  - intros [Hne H]. destruct s as [|c s]; [congruence|].
    simpl in H. apply andb_prop in H. destruct H as [Hc Hs].
    change (c :: s) with ([c] ++ s).
    apply lang_cat; [auto | now apply lang_star_class].
Qed.

Lemma lang_chars (q : ascii -> bool) (r : regex) (s : str) :
  classes_within q r -> lang r s -> forallb q s = true.
Proof.
  intros Hq H. induction H; simpl in *; try tauto.
  - now rewrite (Hq c H).
  - rewrite forallb_app. destruct Hq. now rewrite IHlang1, IHlang2.
  - rewrite forallb_app. now rewrite IHlang1, IHlang2.
Qed.

(** A word of [r] is empty only if [r] is nullable. *)
Lemma lang_nonempty (r : regex) (s : str) :
  nullable r = false -> lang r s -> s <> [].
Proof.
  intros Hn H ->. apply nullable_lang in H. congruence.
Qed.

(** ** Versions *)

Lemma version_char_facts (c : ascii) :
  version_char c = true ->
  is_space c = false /\ is_char "v" c = false /\ is_char "|" c = false
  /\ is_linebreak c = false /\ is_char "-" c = false.
Proof.
  assert (H : implb (version_char c)
                (negb (is_space c) && negb (is_char "v" c)
                 && negb (is_char "|" c) && negb (is_linebreak c)
                 && negb (is_char "-" c)) = true) by (by_chars c).
  intros E. rewrite E in H. simpl in H.
  repeat (apply andb_prop in H; destruct H as [H ?]).
  repeat split; now apply negb_true_iff.
Qed.

Lemma digit_facts (c : ascii) :
  is_digit c = true ->
  is_space c = false /\ Ascii.eqb c "+" = false /\ Ascii.eqb c "-" = false
  /\ Ascii.eqb c "." = false.
Proof.
  assert (H : implb (is_digit c)
                (negb (is_space c) && negb (Ascii.eqb c "+")
                 && negb (Ascii.eqb c "-") && negb (Ascii.eqb c ".")) = true)
    by (by_chars c).
  intros E. rewrite E in H. simpl in H.
  repeat (apply andb_prop in H; destruct H as [H ?]).
  repeat split; now apply negb_true_iff.
Qed.

Lemma is_version_lang (s : str) : is_version s = true <-> lang VERSION_RE s.
Proof. apply fullmatch_lang. Qed.

Lemma is_version_chars (s : str) :
  is_version s = true -> forallb version_char s = true.
Proof.
  intros H. apply is_version_lang in H. revert H. apply lang_chars.
  unfold version_char. simpl. repeat split; intros c E; rewrite E;
    auto using orb_true_r.
Qed.

Lemma is_version_nonempty (s : str) : is_version s = true -> s <> [].
Proof.
  intros H. apply is_version_lang in H. revert H.
  now apply lang_nonempty.
Qed.

Lemma forallb_Forall_false (p q : ascii -> bool) (s : str) :
  (forall c, q c = true -> p c = false) ->
  forallb q s = true -> Forall (fun c => p c = false) s.
Proof.
  intros H Hs. apply Forall_forall. intros c Hc.
  rewrite forallb_forall in Hs. auto.
Qed.

(** A version is already normalized. *)
Lemma normalize_version_fix (s : str) :
  is_version s = true -> normalize_version s = s.
Proof.
  intros H. pose proof (is_version_chars _ H) as Hc.
  unfold normalize_version, strip. rewrite strip_by_none.
  - apply lstrip_by_none. intros c t ->. simpl in Hc.
    apply andb_prop in Hc. destruct Hc as [Hc _].
    now apply version_char_facts in Hc.
  - eapply forallb_Forall_false; [|exact Hc].
    intros c E. now apply version_char_facts in E.
Qed.

Lemma strip_version (s : str) : is_version s = true -> strip s = s.
Proof.
  intros H. apply strip_by_none.
  eapply forallb_Forall_false; [|apply is_version_chars, H].
  intros c E. now apply version_char_facts in E.
Qed.

Lemma version_not_dashes (s : str) :
  is_version s = true -> fullmatch DASHES_RE s = false.
Proof.
  intros H. destruct (fullmatch DASHES_RE s) eqn:E; [|reflexivity].
  apply fullmatch_lang, lang_plus_class in E. destruct E as [Hne E].
  pose proof (is_version_chars _ H) as Hc.
  destruct s as [|c s]; [congruence|].
  change (is_char "-" c && forallb (is_char "-") s = true) in E.
  change (version_char c && forallb version_char s = true) in Hc.
  apply andb_prop in E, Hc. destruct E as [E _], Hc as [Hc _].
  apply version_char_facts in Hc. destruct Hc as (_ & _ & _ & _ & Hd).
  congruence.
Qed.

(** *** Splitting at a separator *)

Lemma split_nosep (sep : ascii) (d : str) :
  Forall (fun c => Ascii.eqb c sep = false) d -> split sep d = [d].
Proof.
  induction 1 as [|c d Hc _ IH]; [reflexivity|]. simpl.
  now rewrite Hc, IH.
Qed.

Lemma split_app (sep : ascii) (d t : str) :
  Forall (fun c => Ascii.eqb c sep = false) d ->
  split sep (d ++ sep :: t) = d :: split sep t.
Proof.
  induction 1 as [|c d Hc _ IH]; simpl.
  - now rewrite Ascii.eqb_refl.
  - now rewrite Hc, IH.
Qed.

Lemma digits_nodot (d : str) :
  forallb is_digit d = true -> Forall (fun c => Ascii.eqb c "." = false) d.
Proof.
  intros H. apply Forall_forall. intros c Hc.
  rewrite forallb_forall in H. now apply digit_facts, H.
Qed.

Lemma lang_dot_digits (x : str) :
  lang (Cat (Class (is_char ".")) (Plus (Class is_digit))) x ->
  exists d, x = "."%char :: d /\ digits d.
Proof.
  inversion 1 as [| |a b u v Hu Hv| | | |]; subst.
  inversion Hu as [|p c Hc| | | | |]; subst.
  apply Ascii.eqb_eq in Hc. subst c.
  apply lang_plus_class in Hv. exists v. split; [reflexivity | exact Hv].
Qed.

Lemma lang_components (w : str) :
  lang (Star (Cat (Class (is_char ".")) (Plus (Class is_digit)))) w ->
  forall d, forallb is_digit d = true ->
  exists ps, split "." (d ++ w) = d :: ps /\ Forall digits ps.
Proof.
  intros H.
  remember (Star (Cat (Class (is_char ".")) (Plus (Class is_digit)))) as r
    eqn:Er.
  revert Er. induction H as [| | | | | |a u v Hu _ Hv IHv]; try discriminate;
    intros Er d Hd.
  - exists []. rewrite app_nil_r. split; [|constructor].
    now apply split_nosep, digits_nodot.
  - inversion Er; subst a. apply lang_dot_digits in Hu.
    destruct Hu as (d' & -> & Hd').
    destruct (IHv eq_refl d' (proj2 Hd')) as (ps & E & Hps).
    exists (d' :: ps). simpl. rewrite split_app by now apply digits_nodot.
    rewrite E. split; [reflexivity | now constructor].
Qed.

(** The pattern read through [split]: two components or more, each of
    one digit or more. *)
Lemma is_version_split (s : str) :
  is_version s = true ->
  exists p q ps, split "." s = p :: q :: ps /\ Forall digits (p :: q :: ps).
Proof.
  intros H. apply is_version_lang in H. unfold VERSION_RE in H.
  inversion H as [| |a b u v Hu Hv| | | |]; subst.
  apply lang_plus_class in Hu.
  unfold Plus in Hv at 1.
  inversion Hv as [| |a b x w Hx Hw| | | |]; subst.
  apply lang_dot_digits in Hx. destruct Hx as (d & -> & Hd).
  destruct (lang_components w Hw d (proj2 Hd)) as (ps & E & Hps).
  exists u, d, ps. simpl. rewrite split_app by apply digits_nodot, Hu.
  rewrite E. split; [reflexivity|].
  constructor; [exact Hu|]. constructor; assumption.
Qed.

(** *** [int] on digits *)

Lemma int_digits_total (s : str) :
  forallb is_digit s = true ->
  forall acc b, s <> [] \/ b = true -> exists z, int_digits acc b s = Some z.
Proof.
  induction s as [|c s IH]; simpl; intros H acc b Hb.
  - destruct Hb as [Hb| ->]; [congruence | eauto].
  - apply andb_prop in H. destruct H as [Hc Hs]. rewrite Hc.
    apply IH; auto.
Qed.

Lemma filter_digits (s : str) :
  forallb is_digit s = true -> filter is_digit s = s.
Proof.
  induction s as [|c s IH]; simpl; [reflexivity|]. intros H.
  apply andb_prop in H. destruct H as [Hc Hs]. now rewrite Hc, IH.
Qed.

Lemma digit_not_int_space (c : ascii) :
  is_digit c = true -> is_int_space c = false.
Proof.
  assert (H : implb (is_digit c) (negb (is_int_space c)) = true)
    by (by_chars c).
  intros E. rewrite E in H. now apply negb_true_iff.
Qed.

(** [int] on digits: their value, or [ValueError] past the limit. *)
Lemma py_int_on_digits (s : str) :
  digits s ->
  exists z,
    int_digits 0 false s = Some z
    /\ py_int s
       = if (MAX_STR_DIGITS <? Z.of_nat (List.length s))%Z
         then Raise ValueError else Ok z.
Proof.
  intros [Hne H].
  destruct (int_digits_total _ H 0%Z false) as [z Hz]; [now left|].
  exists z. split; [exact Hz|].
  unfold py_int. rewrite strip_by_none.
  - destruct s as [|c s]; [congruence|].
    pose proof H as H'. simpl in H'. apply andb_prop in H'.
    destruct H' as [Hc _]. apply digit_facts in Hc.
    destruct Hc as (_ & -> & -> & _).
    unfold int_literal. rewrite Hz, (filter_digits _ H).
    now destruct (MAX_STR_DIGITS <? _)%Z.
  - eapply forallb_Forall_false; [|exact H].
    intros c E. now apply digit_not_int_space.
Qed.




Lemma mapM_ok {A B : Type} (f : A -> result B) (l : list A) (bs : list B) :
  mapM f l = Ok bs -> Forall (fun a => exists b, f a = Ok b) l.
Proof.
  revert bs. induction l as [|a l IH]; simpl; intros bs H; [constructor|].
  destruct (f a) as [b|e] eqn:E; simpl in H; [|discriminate].
  destruct (mapM f l) as [bs'|e]; simpl in H; [|discriminate].
  constructor; [eauto | now apply (IH bs')].
Qed.


(** ** Dictionaries *)

Section Dict.
Context {V : Type}.
Implicit Types (d : dict V) (k : str) (v : V).

Lemma dict_get_set_eq k v d : dict_get k (dict_set k v d) = Some v.
Proof.
  induction d as [|[k' v'] d IH]; simpl.
  - now rewrite str_eqb_refl.
  - destruct (str_eqb k k') eqn:E; simpl.
    + now rewrite str_eqb_refl.
    + now rewrite E.
Qed.

Lemma dict_get_set_neq k k' v d :
  k' <> k -> dict_get k' (dict_set k v d) = dict_get k' d.
Proof.
  intros Hne. induction d as [|[k0 v0] d IH]; simpl.
  - apply str_eqb_neq in Hne. now rewrite Hne.
  - destruct (str_eqb k k0) eqn:E; simpl.
    + apply str_eqb_eq in E. subst k0. apply str_eqb_neq in Hne.
      now rewrite Hne.
    + now rewrite IH.
Qed.

Lemma dict_keys_set k k' v d :
  In k' (dict_keys (dict_set k v d)) <-> k' = k \/ In k' (dict_keys d).
Proof.
  unfold dict_keys. induction d as [|[k0 v0] d IH]; simpl.
  - intuition.
  - destruct (str_eqb k k0) eqn:E; simpl.
    + apply str_eqb_eq in E. subst k0. intuition.
    + rewrite IH. intuition.
Qed.

Lemma dict_set_NoDup k v d :
  NoDup (dict_keys d) -> NoDup (dict_keys (dict_set k v d)).
Proof.
  unfold dict_keys. induction d as [|[k0 v0] d IH]; simpl; intros H.
  - repeat constructor. intros [].
  - inversion H as [|? ? Hn Hd]; subst.
    destruct (str_eqb k k0) eqn:E; simpl.
    + apply str_eqb_eq in E. subst k0. now constructor.
    + constructor; [|now apply IH].
      intros Hin. apply (dict_keys_set k k0 v d) in Hin.
      destruct Hin as [->|Hin]; [|contradiction].
      now rewrite str_eqb_refl in E.
Qed.

Lemma dict_set_Forall (P : str * V -> Prop) k v d :
  Forall P d -> P (k, v) -> Forall P (dict_set k v d).
Proof.
  intros Hd Hk. induction Hd as [|[k0 v0] d H0 Hd IH]; simpl.
  - now constructor.
  - destruct (str_eqb k k0); now constructor.
Qed.

Lemma dict_get_In k v d : dict_get k d = Some v -> In (k, v) d.
Proof.
  induction d as [|[k0 v0] d IH]; simpl; [discriminate|].
  destruct (str_eqb k k0) eqn:E.
  - apply str_eqb_eq in E. subst k0. intros H. inversion H. now left.
  - intros H. right. now apply IH.
Qed.

Lemma dict_get_Forall (P : str * V -> Prop) k v d :
  Forall P d -> dict_get k d = Some v -> P (k, v).
Proof.
  intros Hd Hg. rewrite Forall_forall in Hd. now apply Hd, dict_get_In.
Qed.

Lemma dict_get_None k d : dict_get k d = None <-> ~ In k (dict_keys d).
Proof.
  unfold dict_keys. induction d as [|[k0 v0] d IH]; simpl.
  - intuition.
  - destruct (str_eqb k k0) eqn:E.
    + apply str_eqb_eq in E. subst k0. split; [discriminate | intuition].
    + apply str_eqb_neq in E. rewrite IH. intuition.
Qed.

Lemma dict_get_or_set_eq k v default d :
  dict_get_or k default (dict_set k v d) = v.
Proof. unfold dict_get_or. now rewrite dict_get_set_eq. Qed.
End Dict.

Lemma Forall_keys {V : Type} (P : str -> Prop) (d : dict V) :
  Forall P (dict_keys d) <-> Forall (fun kv => P (fst kv)) d.
Proof. unfold dict_keys. apply Forall_map. Qed.

(** ** The row mappings hold versions only, each once *)

Lemma versions_ok_nil : versions_ok [].
Proof. split; constructor. Qed.

Lemma versions_ok_set (t : table) (k : str) (r : row) :
  versions_ok t -> is_version k = true -> versions_ok (dict_set k r t).
Proof.
  intros [Hn Hf] Hk. split; [now apply dict_set_NoDup|].
  apply Forall_keys. apply Forall_keys in Hf.
  apply dict_set_Forall; [exact Hf | exact Hk].
Qed.

Lemma parse_line_versions_ok (st : list str * table) (line : str) :
  versions_ok (snd st) -> versions_ok (snd (parse_line st line)).
Proof.
  destruct st as [columns rows]. unfold parse_line. intros H.
  destruct (negb (startswith $"|" line)); [exact H|].
  destruct (List.length (line_parts line) <? 2); [exact H|].
  destruct columns as [|c cs]; [exact H|].
  destruct (forallb _ (line_parts line)); [exact H|].
  destruct (is_version (row_version _)) eqn:E; simpl; [|exact H].
  now apply versions_ok_set.
Qed.

Lemma fold_left_invariant {A B : Type} (P : A -> Prop) (f : A -> B -> A)
      (l : list B) (a : A) :
  (forall a b, P a -> P (f a b)) -> P a -> P (fold_left f l a).
Proof.
  intros Hf. revert a. induction l as [|b l IH]; simpl; auto.
Qed.

Lemma parse_table_versions_ok (table_file : option str) :
  versions_ok (parse_table table_file).
Proof.
  destruct table_file as [text|]; simpl; [|apply versions_ok_nil].
  apply (fold_left_invariant (fun st => versions_ok (snd st))).
  - intros. now apply parse_line_versions_ok.
  - apply versions_ok_nil.
Qed.

Lemma load_entry_versions_ok (platform : str) (updates : table)
      (item : str * json) :
  versions_ok updates -> versions_ok (load_entry platform updates item).
Proof.
  destruct item as [version status]. unfold load_entry. intros H.
  destruct (is_version (normalize_version _)) eqn:E; simpl; [|exact H].
  now apply versions_ok_set.
Qed.

Lemma foldM_invariant {A B : Type} (P : A -> Prop) (f : A -> B -> result A)
      (l : list B) (a a' : A) :
  (forall a b a', P a -> f a b = Ok a' -> P a') ->
  P a -> foldM f l a = Ok a' -> P a'.
Proof.
  intros Hf. revert a. induction l as [|b l IH]; simpl; intros a Ha E.
  - inversion E. now subst.
  - destruct (f a b) as [a1|e] eqn:E1; simpl in E; [|discriminate].
    eapply IH; [|exact E]. eapply Hf; eauto.
Qed.

Lemma load_file_invariant (P : table -> Prop) (updates updates' : table)
      (file : file_content) :
  (forall platform u item,
      In platform PLATFORMS -> P u -> P (load_entry platform u item)) ->
  P updates -> load_file updates file = Ok updates' -> P updates'.
Proof.
  intros Hstep H E.
  destruct file as [|f|[| | | | |payload]]; unfold load_file in E;
    try discriminate.
  - inversion E. now subst.
  - match type of E with
    | context [str_in ?p PLATFORMS] =>
        destruct (str_in p PLATFORMS) eqn:Ep; cbn [negb] in E
    end; [|inversion E; now subst].
    apply str_in_In in Ep.
    destruct (dict_get_or $"results" (JObj []) payload);
      inversion E; subst; try assumption.
    apply fold_left_invariant; auto.
Qed.

Lemma load_results_invariant (P : table -> Prop)
      (results_dir : option (list file_content)) (updates : table) :
  (forall platform u item,
      In platform PLATFORMS -> P u -> P (load_entry platform u item)) ->
  P [] -> load_results results_dir = Ok updates -> P updates.
Proof.
  intros Hstep H0 E. destruct results_dir as [files|]; simpl in E.
  - eapply foldM_invariant; [|exact H0|exact E].
    intros a b a' Ha. now apply load_file_invariant.
  - inversion E. now subst.
Qed.

Lemma load_results_versions_ok results_dir (updates : table) :
  load_results results_dir = Ok updates -> versions_ok updates.
Proof.
  apply load_results_invariant; [|apply versions_ok_nil].
  intros. now apply load_entry_versions_ok.
Qed.

Lemma merged_rows_versions_ok version_arg table_file (updates : table) now :
  is_version (normalize_version version_arg) = true ->
  versions_ok (merged_rows version_arg table_file updates now).
Proof.
  intros H. unfold merged_rows. apply versions_ok_set; [|exact H].
  apply parse_table_versions_ok.
Qed.

(** ** Sorting *)

Lemma tuple_ltb_irrefl (a : list Z) : tuple_ltb a a = false.
Proof.
  induction a as [|x a IH]; simpl; [reflexivity|].
  now rewrite Z.ltb_irrefl.
Qed.

Lemma tuple_ltb_trans (a b c : list Z) :
  tuple_ltb a b = true -> tuple_ltb b c = true -> tuple_ltb a c = true.
Proof.
  revert b c. induction a as [|x a IH]; intros [|y b] [|z c]; simpl;
    try congruence.
  destruct (x <? y)%Z eqn:Exy, (y <? z)%Z eqn:Eyz, (x <? z)%Z eqn:Exz;
    try reflexivity; try lia;
    destruct (y <? x)%Z eqn:Eyx, (z <? y)%Z eqn:Ezy, (z <? x)%Z eqn:Ezx;
    try congruence; try lia.
  apply IH.
Qed.

Lemma tuple_ltb_total (a b : list Z) :
  tuple_ltb a b = true \/ a = b \/ tuple_ltb b a = true.
Proof.
  revert b. induction a as [|x a IH]; intros [|y b]; simpl; auto.
  destruct (x <? y)%Z eqn:Exy; [auto|].
  destruct (y <? x)%Z eqn:Eyx; [auto|].
  assert (x = y) by lia. subst y.
  destruct (IH b) as [H|[H|H]]; subst; auto.
Qed.

Lemma tuple_ge_trans (a b c : list Z) :
  tuple_ge a b -> tuple_ge b c -> tuple_ge a c.
Proof.
  unfold tuple_ge. intros Hab Hbc.
  destruct (tuple_ltb a c) eqn:Hac; [|reflexivity].
  destruct (tuple_ltb_total a b) as [H|[H|H]]; [congruence|subst; congruence|].
  rewrite (tuple_ltb_trans _ _ _ H Hac) in Hbc. discriminate.
Qed.

Lemma tuple_lt_ge (a b : list Z) : tuple_ltb a b = true -> tuple_ge b a.
Proof.
  unfold tuple_ge. intros H. destruct (tuple_ltb b a) eqn:E; [|reflexivity].
  pose proof (tuple_ltb_trans _ _ _ H E) as C.
  now rewrite tuple_ltb_irrefl in C.
Qed.

Section Sorted.
Context {A : Type}.
Implicit Types (x : list Z * A) (l : list (list Z * A)).

Lemma insert_desc_perm x l : Permutation (x :: l) (insert_desc x l).
Proof.
  induction l as [|y l IH]; simpl; [reflexivity|].
  destruct (tuple_ltb (fst x) (fst y)); [|reflexivity].
  rewrite perm_swap. now constructor.
Qed.

Lemma sorted_desc_perm l : Permutation l (sorted_desc l).
Proof.
  induction l as [|x l IH]; simpl; [constructor|].
  rewrite <- insert_desc_perm. now constructor.
Qed.

Lemma insert_desc_sorted x l :
  StronglySorted key_ge l -> StronglySorted key_ge (insert_desc x l).
Proof.
  induction 1 as [|y l Hl IH Hy]; simpl.
  - repeat constructor.
  - destruct (tuple_ltb (fst x) (fst y)) eqn:E.
    + constructor; [exact IH|].
      rewrite <- insert_desc_perm. constructor; [|exact Hy].
      now apply tuple_lt_ge.
    + constructor; [now constructor|].
      constructor; [exact E|].
      eapply Forall_impl; [|exact Hy].
      intros z Hz. unfold key_ge in *. eapply tuple_ge_trans; eauto.
Qed.

Lemma sorted_desc_sorted l : StronglySorted key_ge (sorted_desc l).
Proof.
  induction l as [|x l IH]; simpl; [constructor|].
  now apply insert_desc_sorted.
Qed.
End Sorted.

Lemma mapM_keyed {A K : Type} (f : A -> result K) (l : list A) keyed :
  mapM (fun a => key <- f a ;; Ok (key, a)) l = Ok keyed ->
  map snd keyed = l /\ Forall (fun ka => f (snd ka) = Ok (fst ka)) keyed.
Proof.
  revert keyed. induction l as [|a l IH]; simpl; intros keyed E.
  - inversion E. subst. split; constructor.
  - destruct (f a) as [k|e] eqn:Ea; simpl in E; [|discriminate].
    destruct (mapM _ l) as [ks|e] eqn:El; simpl in E; [|discriminate].
    inversion E; subst. destruct (IH ks eq_refl) as [E1 E2].
    simpl. rewrite E1. split; [reflexivity | now constructor].
Qed.

Lemma keyed_sorted (keyed : list (list Z * str)) :
  Forall (fun ka => version_sort_key (snd ka) = Ok (fst ka)) keyed ->
  StronglySorted key_ge keyed ->
  StronglySorted version_ge (map snd keyed).
Proof.
  intros Hk Hs. induction Hs as [|x l Hl IH Hx]; simpl; [constructor|].
  inversion Hk as [|? ? Hkx Hkl]; subst.
  constructor; [now apply IH|].
  apply Forall_map. rewrite Forall_forall in *. intros y Hy.
  exists (fst x), (fst y). repeat split; auto. now apply Hx.
Qed.

(** What [sorted_versions] returns: all the versions, largest first. *)
Lemma sorted_versions_spec (rows : table) (order : list str) :
  sorted_versions rows = Ok order ->
  Permutation (dict_keys rows) order /\ StronglySorted version_ge order.
Proof.
  unfold sorted_versions. intros H.
  destruct (mapM _ (dict_keys rows)) as [keyed|e] eqn:E; [|discriminate].
  cbn [bind] in H.
  assert (Eo : map snd (sorted_desc keyed) = order) by congruence.
  subst order. destruct (mapM_keyed _ _ _ E) as [E1 E2]. split.
  - rewrite <- E1. apply Permutation_map, sorted_desc_perm.
  - apply keyed_sorted; [|apply sorted_desc_sorted].
    eapply Permutation_Forall; [apply sorted_desc_perm | exact E2].
Qed.


Lemma write_table_text (rows : table) (order : list str) :
  sorted_versions rows = Ok order ->
  write_table rows
  = Ok (join LF
             (PREAMBLE ++ HEADER
              ++ map (fun version =>
                        table_line version (dict_get_or version [] rows))
                     order)
        ++ LF).
Proof. intros E. unfold write_table. now rewrite E. Qed.

Lemma write_table_inv (rows : table) (text : str) :
  write_table rows = Ok text -> exists order, sorted_versions rows = Ok order.
Proof.
  unfold write_table. destruct (sorted_versions rows) as [order|e];
    [eauto | discriminate].
Qed.


(** ** Loading results *)

Lemma foldM_app {A B : Type} (f : A -> B -> result A) (l1 l2 : list B)
      (a : A) :
  foldM f (l1 ++ l2) a = (a' <- foldM f l1 a ;; foldM f l2 a').
Proof.
  revert a. induction l1 as [|b l1 IH]; simpl; intros a; [reflexivity|].
  destruct (f a b); simpl; auto.
Qed.

(** A file that leaves the updates as they are can be taken out of the
    directory. *)
Lemma load_results_skip (file : file_content)
      (before after : list file_content) :
  (forall updates, load_file updates file = Ok updates) ->
  load_results (Some (before ++ file :: after))
  = load_results (Some (before ++ after)).
Proof.
  intros H. unfold load_results. rewrite !foldM_app.
  destruct (foldM load_file before []) as [u|e]; simpl; [|reflexivity].
  now rewrite H.
Qed.

Lemma load_file_unknown_platform (payload : dict json) (updates : table) :
  ~ In (strip (py_str (dict_get_or $"platform" (JStr []) payload))) PLATFORMS ->
  load_file updates (Parsed (JObj payload)) = Ok updates.
Proof.
  intros H. unfold load_file.
  destruct (str_in _ PLATFORMS) eqn:E; [|reflexivity].
  apply str_in_In in E. contradiction.
Qed.

Lemma normalize_status_spec (status : json) :
  let s := lower (strip (py_str status)) in
  (In s STATUSES /\ normalize_status status = s)
  \/ (~ In s STATUSES /\ normalize_status status = $"fail").
Proof.
  unfold normalize_status. cbv zeta.
  destruct (str_in (lower (strip (py_str status))) [$"pass"; $"fail"; $"not-run"])
    eqn:E; cbn [negb].
  - left. split; [now apply str_in_In | reflexivity].
  - right. split; [|reflexivity]. intros H. apply str_in_In in H.
    unfold STATUSES in H. congruence.
Qed.

Lemma normalize_status_in (status : json) :
  In (normalize_status status) STATUSES.
Proof.
  destruct (normalize_status_spec status) as [[H ->]|[_ ->]]; [exact H|].
  right. left. reflexivity.
Qed.

Lemma statuses_ok_get (updates : table) (version : str) :
  statuses_ok updates -> platform_row (dict_get_or version [] updates).
Proof.
  intros H. unfold dict_get_or.
  destruct (dict_get _ _) as [r|] eqn:E.
  - exact (@dict_get_Forall _ (fun kv => platform_row (snd kv)) _ _ _ H E).
  - split; constructor.
Qed.

Lemma load_entry_statuses_ok (platform : str) (updates : table)
      (item : str * json) :
  In platform PLATFORMS ->
  statuses_ok updates -> statuses_ok (load_entry platform updates item).
Proof.
  destruct item as [version status]. unfold load_entry. intros Hp H.
  destruct (is_version (normalize_version _)); simpl; [|exact H].
  apply dict_set_Forall; [exact H|]. simpl.
  destruct (statuses_ok_get updates
                            (normalize_version (py_str (JStr version))) H)
    as [Hn Hf].
  split; [now apply dict_set_NoDup|].
  apply dict_set_Forall; [exact Hf|]. simpl.
  split; [exact Hp | apply normalize_status_in].
Qed.

Lemma load_results_statuses_ok results_dir (updates : table) :
  load_results results_dir = Ok updates -> statuses_ok updates.
Proof.
  apply load_results_invariant; [|constructor].
  intros. now apply load_entry_statuses_ok.
Qed.



(** ** Runs of [main] *)

Lemma main_invalid version_arg table_file results_dir now :
  is_version (normalize_version version_arg) = false ->
  main version_arg table_file results_dir now
  = (Raised (SystemExit ($"Invalid version: " ++ version_arg)), table_file).
Proof. intros H. unfold main. now rewrite H. Qed.


Lemma main_returned version_arg table_file results_dir now code after :
  main version_arg table_file results_dir now = (Returned code, after) ->
  is_version (normalize_version version_arg) = true
  /\ exists updates text,
      load_results results_dir = Ok updates
      /\ write_table (merged_rows version_arg table_file updates now) = Ok text
      /\ code = 0%Z /\ after = Some text.
Proof.
  unfold main.
  destruct (is_version (normalize_version version_arg)); cbn [negb];
    [|discriminate].
  destruct (load_results results_dir) as [updates|e]; [|discriminate].
  destruct (write_table _) as [text|e] eqn:Hw; [|discriminate].
  intros H. inversion H; subst. split; [reflexivity|].
  exists updates, text. auto.
Qed.

(** C3: when the normalized [--version] argument does not match the
    pattern, the process ends with [SystemExit("Invalid version: ...")],
    a non-zero exit status, whatever the table file and the results
    directory hold, and the table file is left as it was; whenever
    [main] returns, the version was valid, the code is 0, the exit
    status is 0 and the table has been written.  [--version abc] exits
    with status 1. *)
Theorem C3_invalid_version_is_fatal :
  (forall version_arg table_file results_dir now,
      is_version (normalize_version version_arg) = false ->
      let run := main version_arg table_file results_dir now in
      fst run = Raised (SystemExit ($"Invalid version: " ++ version_arg))
      /\ exit_message (fst run) = Some ($"Invalid version: " ++ version_arg)
      /\ exit_status (fst run) <> 0%Z
      /\ snd run = table_file)
  /\ (forall version_arg table_file results_dir now code after,
         main version_arg table_file results_dir now = (Returned code, after) ->
         code = 0%Z
         /\ exit_status (fst (main version_arg table_file results_dir now))
            = 0%Z
         /\ is_version (normalize_version version_arg) = true
         /\ exists text, after = Some text)
  /\ (forall table_file results_dir now,
         exit_status (fst (main $"abc" table_file results_dir now)) = 1%Z
         /\ snd (main $"abc" table_file results_dir now) = table_file).
Proof.
  split; [|split].
  - intros version_arg table_file results_dir now H. cbv zeta.
    rewrite main_invalid by exact H. simpl. repeat split. discriminate.
  - intros version_arg table_file results_dir now code after H.
    pose proof H as H'. apply main_returned in H'.
    destruct H' as (Hv & updates & text & _ & _ & -> & ->).
    rewrite H. repeat split; eauto.
  - intros table_file results_dir now.
    rewrite main_invalid by reflexivity. now split.
Qed.

Lemma C3_invalid_version_witness :
  (fst (main $"abc" (Some $"| a | b |") None
            {| year := 2026; month := 1; day := 2;
               hour := 3; minute := 4; second := 5 |})
   = Raised (SystemExit $"Invalid version: abc")
   /\ snd (main $"abc" (Some $"| a | b |") None
                {| year := 2026; month := 1; day := 2;
                   hour := 3; minute := 4; second := 5 |})
      = Some $"| a | b |")
  /\ exit_status
       (fst (main $"v1.2.3" None None
                  {| year := 2026; month := 1; day := 2;
                     hour := 3; minute := 4; second := 5 |})) = 0%Z.
Proof.
  split.
  - destruct (proj1 C3_invalid_version_is_fatal $"abc"
                    (Some $"| a | b |") None
                    {| year := 2026; month := 1; day := 2;
                       hour := 3; minute := 4; second := 5 |})
      as (H1 & _ & _ & H2).
    + vm_compute. reflexivity.
    + split; [exact H1 | exact H2].
  - refine (proj1 (proj2 (proj1 (proj2 C3_invalid_version_is_fatal)
              $"v1.2.3" None None
              {| year := 2026; month := 1; day := 2;
                 hour := 3; minute := 4; second := 5 |} 0%Z _ _))).
    vm_compute. reflexivity.
Defined.

(** C6, as the code has it: an artifact whose platform field, taken as
    a string and stripped of surrounding whitespace, is not one of the
    five contributes nothing: [load_results] gives the updates it gives
    without the artifact, and so does the whole run. *)
Theorem C6_unknown_platform_ignored (payload : dict json) :
  ~ In (strip (py_str (dict_get_or $"platform" (JStr []) payload))) PLATFORMS ->
  (forall updates, load_file updates (Parsed (JObj payload)) = Ok updates)
  /\ (forall before after,
         load_results (Some (before ++ Parsed (JObj payload) :: after))
         = load_results (Some (before ++ after)))
  /\ (forall version_arg table_file before after now,
         main version_arg table_file
              (Some (before ++ Parsed (JObj payload) :: after)) now
         = main version_arg table_file (Some (before ++ after)) now).
Proof.
  intros H.
  assert (Hskip : forall updates,
             load_file updates (Parsed (JObj payload)) = Ok updates)
    by (intros; now apply load_file_unknown_platform).
  split; [exact Hskip|]. split.
  - intros. now apply load_results_skip.
  - intros. unfold main.
    now rewrite (load_results_skip _ before after Hskip).
Qed.

Lemma C6_unknown_platform_witness :
  load_results
    (Some [Parsed (JObj [($"platform", JStr $"freebsd");
                         ($"results", JObj [($"1.2.3", JStr $"pass")])])])
  = Ok [].
Proof.
  refine (proj1 (proj2 (@C6_unknown_platform_ignored
            [($"platform", JStr $"freebsd");
             ($"results", JObj [($"1.2.3", JStr $"pass")])] _)) [] []).
  vm_compute. intros H.
  repeat (destruct H as [H|H]; [discriminate|]). exact H.
Defined.

(** C6, as stated, fails: the platform field " mac " is not in the
    allow-list, yet the artifact is loaded, under "mac": the field is
    stripped before it is looked up. *)
Lemma C6_padded_platform_is_loaded :
  ~ In $" mac " PLATFORMS
  /\ load_results
       (Some [Parsed (JObj [($"platform", JStr $" mac ");
                            ($"results", JObj [($"1.0", JStr $"pass")])])])
     = Ok [($"1.0", [($"mac", $"pass")])].
Proof.
  split; [|vm_compute; reflexivity].
  simpl. intros H. repeat (destruct H as [H|H]; [discriminate|]). exact H.
Qed.






(** C8: after parsing the table, after loading the results and after
    the merge, every key of the row mapping matches the dotted-numeric
    pattern and occurs once; a table row and an artifact entry whose
    normalized version does not match are dropped.  A key that matches
    splits at the dots into two components or more, all of digits. *)
Theorem C8_rows_keyed_by_version :
  (forall table_file, versions_ok (parse_table table_file))
  /\ (forall results_dir updates,
         load_results results_dir = Ok updates -> versions_ok updates)
  /\ (forall version_arg table_file updates now,
         is_version (normalize_version version_arg) = true ->
         versions_ok (merged_rows version_arg table_file updates now))
  /\ (forall columns rows line,
         columns <> [] ->
         is_version (row_version (cells columns (line_parts line))) = false ->
         parse_line (columns, rows) line = (columns, rows))
  /\ (forall platform updates version status,
         is_version (normalize_version version) = false ->
         load_entry platform updates (version, status) = updates)
  /\ (forall version,
         is_version version = true ->
         exists p q ps,
           split "." version = p :: q :: ps /\ Forall digits (p :: q :: ps)).
Proof.
  split; [exact parse_table_versions_ok|].
  split; [exact load_results_versions_ok|].
  split; [exact merged_rows_versions_ok|].
  split; [|split].
  - intros columns rows line Hc H. unfold parse_line.
    destruct (negb _); [reflexivity|].
    destruct (_ <? 2); [reflexivity|].
    destruct columns as [|c cs]; [congruence|].
    destruct (forallb _ _); [reflexivity|].
    now rewrite H.
  - intros platform updates version status H. unfold load_entry.
    simpl py_str. now rewrite H.
  - exact is_version_split.
Qed.

Lemma C8_rows_keyed_witness :
  versions_ok
    (merged_rows $"v1.2.3" (Some $"| Codex version | linux |
| 1.2.2 | pass |
| nightly | pass |") []
       {| year := 2026; month := 1; day := 2;
          hour := 3; minute := 4; second := 5 |})
  /\ load_entry $"linux" [] ($"latest", JStr $"pass") = [].
Proof.
  destruct C8_rows_keyed_by_version as (_ & _ & H1 & _ & H2 & _).
  split.
  - apply H1. vm_compute. reflexivity.
  - apply H2. vm_compute. reflexivity.
Defined.

(** C2: the status of every entry of an artifact is stripped and put in
    lower case, and is replaced by "fail" unless it is then one of pass,
    fail, not-run; this is the status stored for the entry, so every
    status of the loaded updates is one of the three.  The artifact of
    platform "linux" with results {"1.2.3": "PASS"} gives row "1.2.3"
    with linux = "pass". *)
Theorem C2_status_normalized :
  (forall status,
      let s := lower (strip (py_str status)) in
      (In s STATUSES /\ normalize_status status = s)
      \/ (~ In s STATUSES /\ normalize_status status = $"fail"))
  /\ (forall platform updates version status,
         is_version (normalize_version version) = true ->
         dict_get platform
                  (dict_get_or (normalize_version version) []
                               (load_entry platform updates (version, status)))
         = Some (normalize_status status))
  /\ (forall results_dir updates version r platform status,
         load_results results_dir = Ok updates ->
         dict_get version updates = Some r ->
         dict_get platform r = Some status ->
         In status STATUSES)
  /\ load_results
       (Some [Parsed (JObj [($"platform", JStr $"linux");
                            ($"results", JObj [($"1.2.3", JStr $"PASS")])])])
     = Ok [($"1.2.3", [($"linux", $"pass")])].
Proof.
  split; [exact normalize_status_spec|]. split; [|split].
  - intros platform updates version status H. unfold load_entry.
    simpl py_str. rewrite H. cbn [negb].
    rewrite dict_get_or_set_eq. apply dict_get_set_eq.
  - intros results_dir updates version r platform status Hl Hv Hp.
    apply load_results_statuses_ok in Hl.
    pose proof (@dict_get_Forall _ (fun kv => platform_row (snd kv))
                                 _ _ _ Hl Hv) as [_ Hr].
    exact (proj2 (@dict_get_Forall _ _ _ _ _ Hr Hp)).
  - vm_compute. reflexivity.
Qed.

Lemma C2_status_normalized_witness :
  dict_get $"mac"
           (dict_get_or $"1.2.3" []
                        (load_entry $"mac" [] ($"v1.2.3", JStr $" Flaky ")))
  = Some $"fail"
  /\ In $"fail" STATUSES.
Proof.
  destruct C2_status_normalized as (_ & H1 & H2 & _). split.
  - exact (H1 $"mac" [] $"v1.2.3" (JStr $" Flaky ") eq_refl).
  - apply (H2 (Some [Parsed (JObj [($"platform", JStr $"mac");
                                   ($"results", JObj [($"v1.2.3", JStr $" Flaky ")])])])
              [($"1.2.3", [($"mac", $"fail")])]
              $"1.2.3" [($"mac", $"fail")] $"mac" $"fail");
      vm_compute; reflexivity.
Defined.

(** ** Normalizing a version *)

Lemma rstrip_fix_tail (p : ascii -> bool) (a : ascii) (s : str) :
  rstrip_by p (a :: s) = a :: s -> rstrip_by p s = s.
Proof.
  simpl. destruct (rstrip_by p s) as [|b r].
  - destruct (p a); intros H; [discriminate | now inversion H].
  - intros H. now inversion H.
Qed.

Lemma rstrip_fix_lstrip (p q : ascii -> bool) (s : str) :
  rstrip_by p s = s -> rstrip_by p (lstrip_by q s) = lstrip_by q s.
Proof.
  induction s as [|a s IH]; [reflexivity|]. intros H. simpl.
  destruct (q a); [|exact H]. apply IH. now apply rstrip_fix_tail in H.
Qed.

Lemma lstrip_by_length (p : ascii -> bool) (s : str) :
  List.length (lstrip_by p s) <= List.length s.
Proof.
  induction s as [|a s IH]; simpl; [lia|]. destruct (p a); simpl; lia.
Qed.

Lemma rstrip_by_length (p : ascii -> bool) (s : str) :
  List.length (rstrip_by p s) <= List.length s.
Proof.
  induction s as [|a s IH]; simpl; [lia|].
  destruct (rstrip_by p s); [destruct (p a)|]; simpl in *; lia.
Qed.

(** The normalized version has no space at its end and no "v" at its
    start. *)
Lemma normalize_version_rstrip (v : str) :
  rstrip_by is_space (normalize_version v) = normalize_version v.
Proof.
  unfold normalize_version, strip, strip_by.
  apply rstrip_fix_lstrip, rstrip_by_idem.
Qed.

Lemma normalize_version_head (v : str) c t :
  normalize_version v = c :: t -> is_char "v" c = false.
Proof. apply lstrip_by_head. Qed.

(** Normalizing again changes nothing exactly when no space is left at
    the start, after the "v"s. *)
Lemma normalize_version_idem_iff (v : str) :
  normalize_version (normalize_version v) = normalize_version v
  <-> (forall c t, normalize_version v = c :: t -> is_space c = false).
Proof.
  split.
  - intros H c t E. destruct (is_space c) eqn:Ec; [|reflexivity].
    exfalso. apply (f_equal (@List.length ascii)) in H.
    rewrite E in H. unfold normalize_version at 1 in H.
    unfold strip, strip_by in H. simpl lstrip_by in H. rewrite Ec in H.
    pose proof (lstrip_by_length (is_char "v")
                  (rstrip_by is_space (lstrip_by is_space t))).
    pose proof (rstrip_by_length is_space (lstrip_by is_space t)).
    pose proof (lstrip_by_length is_space t).
    simpl in H. lia.
  - intros H. unfold normalize_version at 1.
    assert (E : strip (normalize_version v) = normalize_version v).
    { unfold strip, strip_by. rewrite (lstrip_by_none _ _ H).
      apply normalize_version_rstrip. }
    rewrite E. apply lstrip_by_idem.
Qed.

Lemma normalize_version_v (s : str) :
  is_version s = true -> normalize_version ("v"%char :: s) = s.
Proof.
  intros H. pose proof (is_version_chars _ H) as Hc.
  unfold normalize_version, strip. rewrite strip_by_none.
  - simpl. apply lstrip_by_none. intros c t ->. simpl in Hc.
    apply andb_prop in Hc. destruct Hc as [Hc _].
    now apply version_char_facts in Hc.
  - constructor; [reflexivity|].
    eapply forallb_Forall_false; [|exact Hc].
    intros c E. now apply version_char_facts in E.
Qed.

(** C10, as the code has it: normalization strips the surrounding
    whitespace and then every leading "v"; its result has no "v" at the
    start and no whitespace at the end, and normalizing it again changes
    nothing exactly when no whitespace is left at its start, which is
    so whenever the result is a version.  For a version [s], "v" + s
    and [s] normalize to [s]: the run of [main], an artifact entry and a
    table row are the same for both, as for "v1.2.3" and "1.2.3". *)
Theorem C10_normalize_version :
  (forall v,
      rstrip_by is_space (normalize_version v) = normalize_version v
      /\ (forall c t, normalize_version v = c :: t -> is_char "v" c = false))
  /\ (forall v,
         normalize_version (normalize_version v) = normalize_version v
         <-> (forall c t, normalize_version v = c :: t -> is_space c = false))
  /\ (forall v,
         is_version (normalize_version v) = true ->
         normalize_version (normalize_version v) = normalize_version v)
  /\ (forall s,
         is_version s = true ->
         normalize_version ("v"%char :: s) = s
         /\ normalize_version s = s
         /\ (forall table_file results_dir now,
                main ("v"%char :: s) table_file results_dir now
                = main s table_file results_dir now)
         /\ (forall platform updates status,
                load_entry platform updates ("v"%char :: s, status)
                = load_entry platform updates (s, status))
         /\ (forall r,
                row_version (($"Codex version", "v"%char :: s) :: r)
                = row_version (($"Codex version", s) :: r)))
  /\ normalize_version $"v1.2.3" = $"1.2.3"
  /\ normalize_version $"1.2.3" = $"1.2.3".
Proof.
  split; [|split; [|split; [|split]]].
  - intros v. split; [apply normalize_version_rstrip|].
    apply normalize_version_head.
  - exact normalize_version_idem_iff.
  - intros v H. now apply normalize_version_fix.
  - intros s H.
    pose proof (normalize_version_v s H) as Ev.
    pose proof (normalize_version_fix s H) as Es.
    split; [exact Ev|]. split; [exact Es|]. split; [|split].
    + intros table_file results_dir now.
      unfold main, merged_rows. rewrite Ev, Es, H. reflexivity.
    + intros platform updates status. unfold load_entry. simpl py_str.
      now rewrite Ev, Es.
    + intros r. unfold row_version, dict_get_or. cbn [dict_get].
      rewrite !str_eqb_refl. now rewrite Ev, Es.
  - split; vm_compute; reflexivity.
Qed.

Lemma C10_normalize_version_witness :
  normalize_version (normalize_version $" vv2.10 ")
  = normalize_version $" vv2.10 "
  /\ main $"v2.10" None None
          {| year := 2026; month := 1; day := 2;
             hour := 3; minute := 4; second := 5 |}
     = main $"2.10" None None
            {| year := 2026; month := 1; day := 2;
               hour := 3; minute := 4; second := 5 |}.
Proof.
  destruct C10_normalize_version as (_ & _ & H1 & H2 & _). split.
  - apply H1. vm_compute. reflexivity.
  - apply (H2 $"2.10"). vm_compute. reflexivity.
Defined.

(** C10, as stated, fails: normalizing "v 1.2.3" leaves " 1.2.3", with
    its space, and normalizing that gives "1.2.3". *)
Lemma C10_normalize_not_idempotent :
  normalize_version $"v 1.2.3" = $" 1.2.3"
  /\ normalize_version (normalize_version $"v 1.2.3") = $"1.2.3"
  /\ normalize_version (normalize_version $"v 1.2.3")
     <> normalize_version $"v 1.2.3".
Proof.
  repeat split; try (vm_compute; reflexivity).
  vm_compute. discriminate.
Qed.

(** ** Rows *)

Section DictMore.
Context {V : Type}.
Implicit Types (d o : dict V) (k : str) (v : V).

Lemma dict_fold_get (f : str -> V) (keys : list str) d k :
  dict_get k (fold_left (fun acc k => dict_set k (f k) acc) keys d)
  = if str_in k keys then Some (f k) else dict_get k d.
Proof.
  revert d. induction keys as [|a keys IH]; intros d; [reflexivity|].
  simpl. rewrite IH. unfold str_in.
  destruct (str_eqb k a) eqn:E; simpl.
  - apply str_eqb_eq in E. subst a. rewrite dict_get_set_eq.
    now destruct (existsb _ keys).
  - apply str_eqb_neq in E. now rewrite dict_get_set_neq.
Qed.

Lemma dict_get_comp (f : str -> V) (keys : list str) k :
  dict_get k (dict_comp f keys)
  = if str_in k keys then Some (f k) else None.
Proof. apply dict_fold_get. Qed.

Lemma dict_get_update d o k :
  NoDup (dict_keys o) ->
  dict_get k (dict_update d o)
  = match dict_get k o with
    | Some v => Some v
    | None => dict_get k d
    end.
Proof.
  unfold dict_update. revert d.
  induction o as [|[k0 v0] o IH]; intros d Hn; [reflexivity|].
  inversion Hn as [|? ? Hk Ho]; subst. simpl. rewrite IH by exact Ho.
  destruct (str_eqb k k0) eqn:E.
  - apply str_eqb_eq in E. subst k0.
    apply dict_get_None in Hk. rewrite Hk. apply dict_get_set_eq.
  - apply str_eqb_neq in E. now rewrite dict_get_set_neq.
Qed.

Lemma dict_set_keys_in k v d :
  In k (dict_keys d) -> dict_keys (dict_set k v d) = dict_keys d.
Proof.
  unfold dict_keys. induction d as [|[k0 v0] d IH]; simpl; [tauto|].
  intros H. destruct (str_eqb k k0) eqn:E; simpl.
  - apply str_eqb_eq in E. now subst.
  - apply str_eqb_neq in E. rewrite IH; [reflexivity|].
    destruct H; congruence.
Qed.

Lemma dict_update_keys d o :
  Forall (fun kv => In (fst kv) (dict_keys d)) o ->
  dict_keys (dict_update d o) = dict_keys d.
Proof.
  unfold dict_update. revert d.
  induction o as [|[k0 v0] o IH]; intros d H; [reflexivity|].
  inversion H as [|? ? Hk Ho]; subst. simpl in *. rewrite IH.
  - now apply dict_set_keys_in.
  - now rewrite dict_set_keys_in.
Qed.

Lemma dict_set_fresh k v d :
  ~ In k (dict_keys d) -> dict_set k v d = d ++ [(k, v)].
Proof.
  unfold dict_keys. induction d as [|[k0 v0] d IH]; simpl; [reflexivity|].
  intros H. destruct (str_eqb k k0) eqn:E.
  - apply str_eqb_eq in E. subst. tauto.
  - rewrite IH; [reflexivity | tauto].
Qed.

(** A dictionary is its keys, in order, with their values. *)
Lemma dict_canonical (default : V) d :
  NoDup (dict_keys d) ->
  d = map (fun k => (k, dict_get_or k default d)) (dict_keys d).
Proof.
  unfold dict_keys, dict_get_or.
  induction d as [|[k0 v0] d IH]; intros Hn; [reflexivity|].
  inversion Hn as [|? ? Hk Hd]; subst. simpl.
  rewrite str_eqb_refl. f_equal. rewrite IH at 1 by exact Hd.
  apply map_ext_in. intros k Hin.
  destruct (str_eqb k k0) eqn:E; [|reflexivity].
  apply str_eqb_eq in E. subst. contradiction.
Qed.
End DictMore.

Lemma PLATFORMS_NoDup : NoDup PLATFORMS.
Proof.
  unfold PLATFORMS. repeat constructor; simpl; intros H;
    repeat (destruct H as [H|H]; [discriminate|]); exact H.
Qed.

Lemma merge_row_shape (rows updates : table) (version : str) (now : datetime) :
  platform_row (dict_get_or version [] updates) ->
  let m := merged_status (dict_get_or version [] rows)
                         (dict_get_or version [] updates) in
  merge_row rows updates version now
  = mk_row (m $"linux") (m $"mac") (m $"windows") (m $"rockylinux8")
           (m $"ubuntu20.04") (strftime now).
Proof.
  intros [Hn Hf] m. unfold merge_row.
  set (base := dict_get_or version [] rows) in *.
  set (u := dict_get_or version [] updates) in *.
  set (f := fun platform : str => dict_get_or platform $"not-run" base).
  assert (Hk0 : dict_keys (dict_comp f PLATFORMS) = PLATFORMS) by reflexivity.
  assert (Hk : dict_keys (dict_update (dict_comp f PLATFORMS) u) = PLATFORMS).
  { rewrite dict_update_keys; [exact Hk0|]. rewrite Hk0.
    eapply Forall_impl; [|exact Hf]. intros kv H. exact (proj1 H). }
  rewrite dict_set_fresh.
  2:{ rewrite Hk. simpl. intros H.
      repeat (destruct H as [H|H]; [discriminate|]). exact H. }
  rewrite (dict_canonical [] (dict_update (dict_comp f PLATFORMS) u)).
  2:{ rewrite Hk. exact PLATFORMS_NoDup. }
  rewrite Hk.
  assert (Hm : forall p, In p PLATFORMS ->
               dict_get_or p [] (dict_update (dict_comp f PLATFORMS) u) = m p).
  { intros p Hp. unfold dict_get_or at 1.
    rewrite dict_get_update by exact Hn. rewrite dict_get_comp.
    apply str_in_In in Hp. rewrite Hp. unfold m, merged_status.
    now destruct (dict_get p u). }
  rewrite (map_ext_in _ (fun p => (p, m p)) PLATFORMS)
    by (intros p Hp; now rewrite Hm).
  reflexivity.
Qed.



(** C4: the table is written with its rows in descending order of
    version, the versions compared as tuples of the integers between
    their dots: whenever the sort returns, all the rows are written,
    and no row is followed, at any distance, by one of a greater
    version.  "1.10.0" is written above "1.9.0". *)
Theorem C4_rows_sorted_descending :
  (forall rows order,
      sorted_versions rows = Ok order ->
      Permutation (dict_keys rows) order
      /\ StronglySorted version_ge order
      /\ write_table rows
         = Ok (join LF
                    (PREAMBLE ++ HEADER
                     ++ map (fun version =>
                               table_line version
                                          (dict_get_or version [] rows))
                            order)
               ++ LF))
  /\ version_sort_key $"1.10.0" = Ok [1; 10; 0]%Z
  /\ version_sort_key $"1.9.0" = Ok [1; 9; 0]%Z
  /\ tuple_ltb [1; 9; 0]%Z [1; 10; 0]%Z = true
  /\ ~ version_ge $"1.9.0" $"1.10.0"
  /\ sorted_versions [($"1.9.0", []); ($"1.10.0", [])]
     = Ok [$"1.10.0"; $"1.9.0"]
  /\ write_table [($"1.9.0", mk_row $"pass" $"pass" $"pass" $"pass" $"pass" []);
                  ($"1.10.0", mk_row $"fail" $"fail" $"fail" $"fail" $"fail" [])]
     = Ok (join LF
                (PREAMBLE ++ HEADER
                 ++ [$"| 1.10.0 | fail | fail | fail | fail | fail |  |";
                     $"| 1.9.0 | pass | pass | pass | pass | pass |  |"])
           ++ LF).
Proof.
  split; [|repeat split; try (vm_compute; reflexivity)].
  - intros rows order E.
    destruct (sorted_versions_spec rows order E) as [Hp Hs].
    repeat split; try assumption. now apply write_table_text.
  - intros (ka & kb & Ea & Eb & H).
    vm_compute in Ea, Eb. inversion Ea; inversion Eb; subst.
    vm_compute in H. discriminate.
Qed.

Lemma C4_rows_sorted_witness :
  StronglySorted version_ge [$"10.0.1"; $"9.12"; $"2.0"]
  /\ Permutation [$"2.0"; $"10.0.1"; $"9.12"] [$"10.0.1"; $"9.12"; $"2.0"].
Proof.
  destruct (proj1 C4_rows_sorted_descending
                  [($"2.0", []); ($"10.0.1", []); ($"9.12", [])]
                  [$"10.0.1"; $"9.12"; $"2.0"])
    as (Hp & Hs & _).
  - vm_compute. reflexivity.
  - split; [exact Hs | exact Hp].
Defined.

(** ** Reading back what was written *)

(** *** Lines *)

Lemma splitlines_line (l rest : str) :
  no_break l -> splitlines (l ++ LF ++ rest) = l :: splitlines rest.
Proof.
  induction 1 as [|c l Hc _ IH]; simpl in *.
  - now destruct rest.
  - now rewrite Hc, IH.
Qed.

Lemma splitlines_join (lines : list str) :
  lines <> [] -> Forall no_break lines ->
  splitlines (join LF lines ++ LF) = lines.
Proof.
  intros Hne H. induction H as [|l ls Hl Hls IH]; [congruence|].
  destruct ls as [|l2 ls].
  - change (join LF [l] ++ LF) with (l ++ LF ++ []).
    now rewrite splitlines_line.
  - change (join LF (l :: l2 :: ls)) with (l ++ LF ++ join LF (l2 :: ls)).
    rewrite <- !app_assoc. rewrite splitlines_line by exact Hl.
    f_equal. apply IH. discriminate.
Qed.

Lemma splitlines_no_break (s : str) : Forall no_break (splitlines s).
Proof.
  assert (H : forall n s, List.length s <= n -> Forall no_break (splitlines s)).
  { clear s. induction n as [|n IH]; intros [|c s] Hlen; simpl in *;
      try (constructor; fail); try lia.
    destruct (is_linebreak c) eqn:Ec.
    - destruct s as [|d s]; [repeat constructor|].
      destruct (Ascii.eqb c "013" && Ascii.eqb d "010").
      + constructor; [constructor|]. apply IH. simpl in Hlen. lia.
      + constructor; [constructor|]. apply IH. lia.
    - assert (Hs : Forall no_break (splitlines s)) by (apply IH; lia).
      destruct (splitlines s) as [|l ls].
      + repeat constructor. exact Ec.
      + inversion Hs; subst. constructor; [|assumption].
        constructor; assumption. }
  apply (H (List.length s)). lia.
Qed.

(** *** Cells *)

Lemma rstrip_by_app (p : ascii -> bool) (s t : str) :
  rstrip_by p (s ++ t)
  = match rstrip_by p t with
    | [] => rstrip_by p s
    | r => s ++ r
    end.
Proof.
  induction s as [|a s IH]; simpl.
  - now destruct (rstrip_by p t).
  - rewrite IH. destruct (rstrip_by p t) as [|b r]; [reflexivity|].
    now destruct (s ++ b :: r) eqn:E; [destruct s|].
Qed.

Lemma strip_fix_inv (p : ascii -> bool) (f : str) :
  strip_by p f = f -> lstrip_by p f = f /\ rstrip_by p f = f.
Proof.
  unfold strip_by. intros H.
  assert (Hl : lstrip_by p f = f).
  { destruct f as [|c t]; [reflexivity|].
    destruct (rstrip_by_head p _ _ _ H) as [t' E].
    apply lstrip_by_head in E. simpl. now rewrite E. }
  split; [exact Hl | now rewrite Hl in H].
Qed.

Lemma lstrip_by_forallb (p q : ascii -> bool) (s : str) :
  forallb q s = true -> forallb q (lstrip_by p s) = true.
Proof.
  induction s as [|a s IH]; simpl; [auto|]. intros H.
  destruct (p a); [|exact H]. apply andb_prop in H. now apply IH.
Qed.

Lemma rstrip_by_forallb (p q : ascii -> bool) (s : str) :
  forallb q s = true -> forallb q (rstrip_by p s) = true.
Proof.
  induction s as [|a s IH]; simpl; [auto|]. intros H.
  apply andb_prop in H. destruct H as [Ha Hs]. specialize (IH Hs).
  destruct (rstrip_by p s) as [|b r].
  - destruct (p a); simpl; [reflexivity | now rewrite Ha].
  - simpl in *. now rewrite Ha, IH.
Qed.

Lemma strip_by_forallb (p q : ascii -> bool) (s : str) :
  forallb q s = true -> forallb q (strip_by p s) = true.
Proof.
  intros H. unfold strip_by. now apply rstrip_by_forallb, lstrip_by_forallb.
Qed.

Lemma split_forallb (q : ascii -> bool) (sep : ascii) (s : str) :
  forallb q s = true -> Forall (fun part => forallb q part = true) (split sep s).
Proof.
  induction s as [|c s IH]; simpl; intros H; [repeat constructor|].
  apply andb_prop in H. destruct H as [Hc Hs]. specialize (IH Hs).
  destruct (Ascii.eqb c sep); [now constructor|].
  destruct (split sep s) as [|l ls]; [repeat constructor; simpl; now rewrite Hc|].
  inversion IH; subst. constructor; [|assumption]. simpl. now rewrite Hc.
Qed.

Lemma split_no_sep (sep : ascii) (s : str) :
  Forall (fun part => forallb (fun c => negb (Ascii.eqb c sep)) part = true)
         (split sep s).
Proof.
  induction s as [|c s IH]; simpl; [repeat constructor|].
  destruct (Ascii.eqb c sep) eqn:E; [now constructor|].
  destruct (split sep s) as [|l ls]; [repeat constructor; simpl; now rewrite E|].
  inversion IH; subst. constructor; [|assumption]. simpl. now rewrite E.
Qed.

Lemma strip_padded (f : str) : strip f = f -> strip (padded f) = f.
Proof.
  intros H. apply strip_fix_inv in H. destruct H as [Hl Hr].
  unfold strip, strip_by, padded.
  change (lstrip_by is_space (" "%char :: f ++ [" "%char]))
    with (lstrip_by is_space (f ++ [" "%char])).
  destruct f as [|c t]; [reflexivity|].
  assert (Hc : is_space c = false) by (now apply lstrip_by_head in Hl).
  simpl lstrip_by. rewrite Hc.
  change (c :: t ++ [" "%char]) with ((c :: t) ++ [" "%char]).
  rewrite rstrip_by_app. exact Hr.
Qed.

Lemma padded_no_bar (f : str) :
  forallb cell_char f = true ->
  Forall (fun c => Ascii.eqb c "|" = false) (padded f).
Proof.
  intros H. unfold padded. constructor; [reflexivity|].
  apply Forall_app. split; [|repeat constructor].
  apply Forall_forall. intros c Hc. rewrite forallb_forall in H.
  specialize (H c Hc). unfold cell_char in H. apply andb_prop in H.
  destruct H as [H _]. now apply negb_true_iff in H.
Qed.

(** *** A line of the table *)

Lemma split_join (sep : ascii) (parts : list str) :
  parts <> [] ->
  Forall (Forall (fun c => Ascii.eqb c sep = false)) parts ->
  split sep (join [sep] parts) = parts.
Proof.
  intros Hne H. induction H as [|p ps Hp Hps IH]; [congruence|].
  destruct ps as [|q ps].
  - now apply split_nosep.
  - change (join [sep] (p :: q :: ps)) with (p ++ sep :: join [sep] (q :: ps)).
    rewrite split_app by exact Hp. f_equal. apply IH. discriminate.
Qed.

Lemma join_padded_ends (fields : list str) :
  fields <> [] ->
  exists z1 z2,
    join BAR (map padded fields) = " "%char :: z1
    /\ join BAR (map padded fields) = z2 ++ [" "%char].
Proof.
  induction fields as [|f fs IH]; [congruence|]. intros _.
  destruct fs as [|g fs].
  - exists (f ++ [" "%char]), (" "%char :: f). now split.
  - destruct IH as (z1 & z2 & _ & E2); [discriminate|].
    change (join BAR (map padded (f :: g :: fs)))
      with (padded f ++ BAR ++ join BAR (map padded (g :: fs))).
    rewrite E2.
    exists (f ++ [" "%char] ++ BAR ++ z2 ++ [" "%char]),
           (padded f ++ BAR ++ z2).
    split.
    + unfold padded. simpl. now rewrite <- app_assoc.
    + now rewrite <- !app_assoc.
Qed.

Lemma line_parts_bar_line (fields : list str) :
  fields <> [] -> Forall clean fields ->
  line_parts (bar_line fields) = fields.
Proof.
  intros Hne Hc. unfold line_parts, bar_line.
  destruct (join_padded_ends fields Hne) as (z1 & z2 & E1 & E2).
  set (j := join BAR (map padded fields)) in *.
  assert (Es : strip ("|"%char :: j ++ BAR) = "|"%char :: j ++ BAR).
  { unfold strip, strip_by. rewrite lstrip_by_none.
    - change ("|"%char :: j ++ BAR) with (("|"%char :: j) ++ BAR).
      now apply rstrip_by_app_last.
    - intros c t E. now inversion E. }
  rewrite Es.
  assert (Eb : strip_by (is_char "|") ("|"%char :: j ++ BAR) = j).
  { assert (El : lstrip_by (is_char "|") (j ++ BAR) = j ++ BAR)
      by (rewrite E1; reflexivity).
    unfold strip_by.
    change (lstrip_by (is_char "|") ("|"%char :: j ++ BAR))
      with (lstrip_by (is_char "|") (j ++ BAR)).
    rewrite El, rstrip_by_app.
    change (rstrip_by (is_char "|") BAR) with (@nil ascii).
    cbv iota. rewrite E2. now apply rstrip_by_app_last. }
  rewrite Eb. unfold j, BAR. rewrite split_join.
  - rewrite map_map. rewrite <- (map_id fields) at 2.
    apply map_ext_in. intros f Hf. apply strip_padded.
    rewrite Forall_forall in Hc. now apply Hc.
  - now destruct fields.
  - apply Forall_map. eapply Forall_impl; [|exact Hc].
    intros f [_ Hf]. now apply padded_no_bar.
Qed.

Lemma table_line_bar_line (version s1 s2 s3 s4 s5 ts : str) :
  table_line version (mk_row s1 s2 s3 s4 s5 ts)
  = bar_line [version; s1; s2; s3; s4; s5; ts].
Proof.
  unfold table_line, bar_line, mk_row, padded, BAR. simpl.
  repeat (rewrite <- app_assoc; simpl). reflexivity.
Qed.

(** *** Rows that are written and read back as they are *)

Lemma lower_cell_char (c : ascii) : cell_char (lower_char c) = cell_char c.
Proof.
  assert (H : Bool.eqb (cell_char (lower_char c)) (cell_char c) = true)
    by (by_chars c).
  now apply Bool.eqb_prop.
Qed.

Lemma lower_forallb_cell (s : str) :
  forallb cell_char (lower s) = forallb cell_char s.
Proof.
  unfold lower. induction s as [|c s IH]; simpl; [reflexivity|].
  now rewrite lower_cell_char, IH.
Qed.

Lemma not_run_clean : clean_status $"not-run".
Proof. repeat split; try reflexivity. discriminate. Qed.

Lemma status_cell_clean (x : str) :
  forallb cell_char x = true ->
  clean_status (or_else (lower (strip x)) $"not-run").
Proof.
  intros H. destruct (lower (strip x)) as [|c t] eqn:E; simpl.
  - apply not_run_clean.
  - rewrite <- E. repeat split.
    + rewrite strip_lower. now rewrite strip_idem.
    + rewrite lower_forallb_cell. now apply strip_by_forallb.
    + apply lower_idem.
    + rewrite E. discriminate.
Qed.

Lemma status_in_clean (s : str) : In s STATUSES -> clean_status s.
Proof.
  unfold STATUSES. simpl. intros [<-|[<-|[<-|[]]]];
    (repeat split; try reflexivity; discriminate).
Qed.

Lemma parsed_row_shape (r : dict str) :
  let st := fun platform =>
              or_else (lower (strip (dict_get_or platform [] r))) $"not-run" in
  parsed_row r
  = mk_row (st $"linux") (st $"mac") (st $"windows") (st $"rockylinux8")
           (st $"ubuntu20.04") (strip (dict_get_or $"last_tested_utc" [] r)).
Proof. reflexivity. Qed.

Lemma dict_get_or_chars (k : str) (d : dict str) :
  Forall (fun kv => cell_chars (snd kv)) d -> cell_chars (dict_get_or k [] d).
Proof.
  intros H. unfold dict_get_or. destruct (dict_get k d) as [v|] eqn:E.
  - exact (@dict_get_Forall _ (fun kv => cell_chars (snd kv)) _ _ _ H E).
  - reflexivity.
Qed.

Lemma parsed_row_clean (r : dict str) :
  Forall (fun kv => cell_chars (snd kv)) r -> clean_row (parsed_row r).
Proof.
  intros H. rewrite parsed_row_shape.
  do 6 eexists. split; [reflexivity|].
  repeat split;
    try (apply status_cell_clean; now apply dict_get_or_chars);
    try (apply strip_idem).
  apply strip_by_forallb. now apply dict_get_or_chars.
Qed.

Lemma cells_chars (columns parts : list str) :
  Forall cell_chars parts ->
  Forall (fun kv => cell_chars (snd kv)) (cells columns parts).
Proof.
  intros H. unfold cells.
  assert (Hc : Forall (fun kv => cell_chars (snd kv)) (combine columns parts)).
  { apply Forall_forall. intros [k v] Hin. apply in_combine_r in Hin.
    rewrite Forall_forall in H. now apply H. }
  generalize (@nil (str * str)) (Forall_nil (fun kv : str * str => cell_chars (snd kv))).
  induction Hc as [|[k v] l Hkv _ IH]; intros acc Hacc; simpl; [exact Hacc|].
  apply IH. now apply dict_set_Forall.
Qed.

Lemma line_parts_chars (line : str) :
  no_break line -> Forall cell_chars (line_parts line).
Proof.
  intros H. unfold no_break in H. unfold line_parts. apply Forall_map.
  set (s := strip_by (is_char "|") (strip line)).
  assert (Hs : forallb (fun c => negb (is_linebreak c)) s = true).
  { unfold s, strip. do 2 apply strip_by_forallb.
    apply forallb_forall. intros c Hc. rewrite Forall_forall in H.
    now rewrite (H c Hc). }
  pose proof (split_forallb _ "|" s Hs) as H1.
  pose proof (split_no_sep "|" s) as H2.
  rewrite Forall_forall in *. intros part Hp.
  apply strip_by_forallb. apply forallb_forall. intros c Hc.
  specialize (H1 part Hp). specialize (H2 part Hp).
  rewrite forallb_forall in H1, H2. unfold cell_char.
  now rewrite (H1 c Hc), (H2 c Hc).
Qed.

Lemma parse_line_clean (st : list str * table) (line : str) :
  no_break line ->
  clean_rows (snd st) -> clean_rows (snd (parse_line st line)).
Proof.
  destruct st as [columns rows]. unfold parse_line. intros Hl H.
  destruct (negb (startswith $"|" line)); [exact H|].
  destruct (List.length (line_parts line) <? 2); [exact H|].
  destruct columns as [|c cs]; [exact H|].
  destruct (forallb _ (line_parts line)); [exact H|].
  destruct (is_version (row_version _)); simpl; [|exact H].
  apply dict_set_Forall; [exact H|]. simpl.
  apply parsed_row_clean, cells_chars. now apply line_parts_chars.
Qed.

Lemma parse_table_clean (table_file : option str) :
  clean_rows (parse_table table_file).
Proof.
  destruct table_file as [text|]; simpl; [|constructor].
  pose proof (splitlines_no_break text) as Hl.
  assert (H0 : clean_rows (snd (@nil str, @nil (str * list (str * str)))))
    by constructor.
  revert H0. generalize (@nil str, @nil (str * list (str * str))).
  induction Hl as [|l ls Hl _ IH]; intros st H; simpl; [exact H|].
  apply IH. now apply parse_line_clean.
Qed.

(** *** The time stamp *)

Lemma ts_char_facts (c : ascii) :
  ts_char c = true -> is_space c = false /\ cell_char c = true.
Proof.
  assert (H : implb (ts_char c) (negb (is_space c) && cell_char c) = true)
    by (by_chars c).
  intros E. rewrite E in H. simpl in H. apply andb_prop in H.
  destruct H as [H1 H2]. split; [now apply negb_true_iff | exact H2].
Qed.

Lemma digit_char_ts (n : nat) : ts_char (digit_char n) = true.
Proof.
  unfold digit_char. pose proof (Nat.mod_upper_bound n 10) as H.
  remember (n mod 10) as m eqn:E. clear E.
  do 10 (destruct m as [|m]; [reflexivity|]). lia.
Qed.

Lemma strftime_chars (now : datetime) :
  Forall (fun c => ts_char c = true) (strftime now).
Proof.
  unfold strftime, pad4, pad2. cbn [app list_ascii_of_string].
  repeat (constructor; [first [apply digit_char_ts | reflexivity]|]).
  constructor.
Qed.

Lemma strftime_clean (now : datetime) : clean (strftime now).
Proof.
  pose proof (strftime_chars now) as H. split.
  - apply strip_by_none. eapply Forall_impl; [|exact H].
    intros c Hc. now apply ts_char_facts in Hc.
  - apply forallb_forall. intros c Hc. rewrite Forall_forall in H.
    now apply ts_char_facts, H.
Qed.

(** *** The merged rows *)

Lemma mk_row_get (s1 s2 s3 s4 s5 ts : str) (P : str -> Prop) (platform : str) :
  In platform PLATFORMS ->
  P s1 -> P s2 -> P s3 -> P s4 -> P s5 ->
  P (dict_get_or platform $"not-run" (mk_row s1 s2 s3 s4 s5 ts)).
Proof.
  unfold PLATFORMS. simpl. intros H H1 H2 H3 H4 H5.
  repeat (destruct H as [H|H]; [subst platform; assumption|]).
  contradiction.
Qed.

Lemma merged_status_clean (base loaded : row) (platform : str) :
  In platform PLATFORMS ->
  base = [] \/ clean_row base ->
  platform_row loaded ->
  clean_status (merged_status base loaded platform).
Proof.
  intros Hp Hb [_ Hl]. unfold merged_status.
  destruct (dict_get platform loaded) as [s|] eqn:E.
  - apply status_in_clean.
    exact (proj2 (@dict_get_Forall _ _ _ _ _ Hl E)).
  - destruct Hb as [->|(s1 & s2 & s3 & s4 & s5 & ts & -> & H1 & H2 & H3 & H4 & H5 & _)].
    + apply not_run_clean.
    + now apply mk_row_get.
Qed.

Lemma clean_rows_get (rows : table) (version : str) :
  clean_rows rows ->
  dict_get_or version [] rows = [] \/ clean_row (dict_get_or version [] rows).
Proof.
  intros H. unfold dict_get_or. destruct (dict_get version rows) as [r|] eqn:E.
  - right. exact (@dict_get_Forall _ (fun kv => clean_row (snd kv)) _ _ _ H E).
  - now left.
Qed.

Lemma merge_row_clean (rows updates : table) (version : str) (now : datetime) :
  clean_rows rows -> statuses_ok updates ->
  clean_row (merge_row rows updates version now).
Proof.
  intros Hr Hu.
  pose proof (statuses_ok_get updates version Hu) as Hl.
  pose proof (clean_rows_get rows version Hr) as Hb.
  rewrite merge_row_shape by exact Hl. cbv zeta.
  do 6 eexists. split; [reflexivity|].
  assert (Hm : forall p, In p PLATFORMS ->
               clean_status (merged_status (dict_get_or version [] rows)
                                           (dict_get_or version [] updates) p))
    by (intros; now apply merged_status_clean).
  repeat split; try (apply Hm; unfold PLATFORMS; simpl; tauto);
    apply strftime_clean.
Qed.

Lemma merged_rows_clean version_arg table_file (updates : table) now :
  statuses_ok updates ->
  clean_rows (merged_rows version_arg table_file updates now).
Proof.
  intros Hu. unfold merged_rows.
  apply dict_set_Forall; [apply parse_table_clean|]. simpl.
  apply merge_row_clean; [apply parse_table_clean | exact Hu].
Qed.

(** *** Parsing the written table *)

Lemma parse_header :
  fold_left parse_line (PREAMBLE ++ HEADER) ([], []) = (COLUMNS, []).
Proof. vm_compute. reflexivity. Qed.

Lemma no_break_forallb (l : str) :
  forallb (fun c => negb (is_linebreak c)) l = true -> no_break l.
Proof.
  intros H. apply Forall_forall. intros c Hc.
  rewrite forallb_forall in H. now apply negb_true_iff, H.
Qed.

Lemma header_no_break : Forall no_break (PREAMBLE ++ HEADER).
Proof.
  repeat (constructor; [apply no_break_forallb; vm_compute; reflexivity|]).
  constructor.
Qed.

Lemma version_clean (version : str) :
  is_version version = true -> clean version.
Proof.
  intros H. split; [now apply strip_version|].
  pose proof (is_version_chars _ H) as Hc.
  apply forallb_forall. intros c Hin. rewrite forallb_forall in Hc.
  specialize (Hc c Hin). apply version_char_facts in Hc.
  destruct Hc as (_ & _ & Hb & Hl & _). unfold cell_char, is_char in *.
  rewrite Ascii.eqb_sym, Hb, Hl. reflexivity.
Qed.

Lemma or_else_nil (x : str) : or_else x [] = x.
Proof. now destruct x. Qed.

Lemma clean_status_cell (s : str) :
  clean_status s -> or_else (lower (strip s)) $"not-run" = s.
Proof.
  intros [[Hs _] [Hl Hne]]. rewrite Hs, Hl. now destruct s.
Qed.

Lemma cells_columns (version s1 s2 s3 s4 s5 ts : str) :
  cells COLUMNS [version; s1; s2; s3; s4; s5; ts]
  = written_cells version s1 s2 s3 s4 s5 ts.
Proof. reflexivity. Qed.

Lemma row_version_cells (version s1 s2 s3 s4 s5 ts : str) :
  row_version (written_cells version s1 s2 s3 s4 s5 ts)
  = normalize_version version.
Proof. reflexivity. Qed.

Lemma parsed_row_cells (version s1 s2 s3 s4 s5 ts : str) :
  let st := fun s => or_else (lower (strip s)) $"not-run" in
  parsed_row (written_cells version s1 s2 s3 s4 s5 ts)
  = mk_row (st s1) (st s2) (st s3) (st s4) (st s5) (strip ts).
Proof. reflexivity. Qed.

(** A written row is parsed to itself. *)
Lemma parse_table_line (acc : table) (version : str) (r : row) :
  is_version version = true -> clean_row r ->
  parse_line (COLUMNS, acc) (table_line version r)
  = (COLUMNS, dict_set version r acc).
Proof.
  intros Hv (s1 & s2 & s3 & s4 & s5 & ts & -> & H1 & H2 & H3 & H4 & H5 & Ht).
  rewrite table_line_bar_line. unfold parse_line.
  change (startswith $"|" (bar_line [version; s1; s2; s3; s4; s5; ts]))
    with true.
  cbn [negb]. rewrite line_parts_bar_line.
  2:{ discriminate. }
  2:{ repeat (constructor; [first [now apply version_clean
                                  | match goal with
                                    | H : clean_status ?s |- clean ?s =>
                                        exact (proj1 H)
                                    end
                                  | assumption]|]).
      constructor. }
  change (List.length [version; s1; s2; s3; s4; s5; ts] <? 2) with false.
  cbv iota. unfold COLUMNS at 1.
  cbn [forallb]. rewrite or_else_nil, (version_not_dashes _ Hv).
  cbn [andb].
  rewrite cells_columns, row_version_cells, parsed_row_cells.
  rewrite (normalize_version_fix _ Hv), Hv. cbn [negb].
  rewrite !clean_status_cell by assumption.
  now rewrite (proj1 Ht).
Qed.

Lemma table_line_no_break (version : str) (r : row) :
  is_version version = true -> clean_row r ->
  no_break (table_line version r).
Proof.
  intros Hv (s1 & s2 & s3 & s4 & s5 & ts & -> & H1 & H2 & H3 & H4 & H5 & Ht).
  assert (Hc : forall f, clean f -> no_break f).
  { intros f [_ Hf]. apply Forall_forall. intros c Hin.
    rewrite forallb_forall in Hf. specialize (Hf c Hin).
    unfold cell_char in Hf. apply andb_prop in Hf.
    now apply negb_true_iff. }
  pose proof (Hc _ (version_clean _ Hv)) as Cv.
  pose proof (Hc _ (proj1 H1)) as C1. pose proof (Hc _ (proj1 H2)) as C2.
  pose proof (Hc _ (proj1 H3)) as C3. pose proof (Hc _ (proj1 H4)) as C4.
  pose proof (Hc _ (proj1 H5)) as C5. pose proof (Hc _ Ht) as Ct.
  unfold table_line, no_break.
  repeat (apply Forall_app; split);
    try assumption;
    try (apply no_break_forallb; reflexivity).
  all: cbv [dict_get_or mk_row]; simpl dict_get; assumption.
Qed.

Lemma parse_table_lines (rows : table) (order : list str) (acc : table) :
  Forall (fun version =>
            is_version version = true
            /\ clean_row (dict_get_or version [] rows)) order ->
  fold_left parse_line
            (map (fun version =>
                    table_line version (dict_get_or version [] rows)) order)
            (COLUMNS, acc)
  = (COLUMNS,
     fold_left (fun acc version =>
                  dict_set version (dict_get_or version [] rows) acc)
               order acc).
Proof.
  intros H. revert acc.
  induction H as [|version order [Hv Hr] _ IH]; intros acc; [reflexivity|].
  cbn [map fold_left]. rewrite parse_table_line by assumption. apply IH.
Qed.

Lemma rows_get (rows : table) (version : str) (P : row -> Prop) :
  Forall (fun kv => P (snd kv)) rows ->
  In version (dict_keys rows) -> P (dict_get_or version [] rows).
Proof.
  intros H Hin. unfold dict_get_or.
  destruct (dict_get version rows) as [r|] eqn:E.
  - exact (@dict_get_Forall _ (fun kv => P (snd kv)) _ _ _ H E).
  - apply dict_get_None in E. contradiction.
Qed.

(** What [write_table] writes, [parse_table] reads back: the same
    versions, each with the same row. *)
Lemma parse_write (rows : table) (text : str) :
  versions_ok rows -> clean_rows rows ->
  write_table rows = Ok text ->
  forall version,
    dict_get version (parse_table (Some text)) = dict_get version rows.
Proof.
  intros Hv Hc Hw version.
  destruct (write_table_inv rows text Hw) as [order Eo].
  destruct (sorted_versions_spec rows order Eo) as [Hp _].
  rewrite (write_table_text rows order Eo) in Hw.
  assert (Et : join LF
                    (PREAMBLE ++ HEADER
                     ++ map (fun version =>
                               table_line version (dict_get_or version [] rows))
                            order)
               ++ LF = text) by congruence.
  clear Hw. subst text.
  assert (Ho : Forall (fun version =>
                         is_version version = true
                         /\ clean_row (dict_get_or version [] rows)) order).
  { apply Forall_forall. intros v Hin.
    apply (Permutation_in _ (Permutation_sym Hp)) in Hin.
    destruct Hv as [_ Hv]. rewrite Forall_forall in Hv.
    split; [now apply Hv | now apply rows_get]. }
  unfold parse_table. rewrite splitlines_join.
  2:{ discriminate. }
  2:{ rewrite app_assoc. apply Forall_app. split; [apply header_no_break|].
      apply Forall_map. eapply Forall_impl; [|exact Ho].
      intros v [H1 H2]. now apply table_line_no_break. }
  rewrite app_assoc, fold_left_app, parse_header.
  rewrite parse_table_lines by exact Ho. simpl snd.
  rewrite dict_fold_get. simpl dict_get.
  destruct (str_in version order) eqn:E.
  - apply str_in_In in E.
    apply (Permutation_in _ (Permutation_sym Hp)) in E.
    unfold dict_get_or. destruct (dict_get version rows) eqn:Eg;
      [reflexivity|].
    apply dict_get_None in Eg. contradiction.
  - symmetry. apply dict_get_None. intros Hin.
    apply (Permutation_in _ Hp) in Hin. apply str_in_In in Hin. congruence.
Qed.

(** The table that a run writes holds the merged rows. *)
Lemma run_roundtrip version_arg table_file results_dir now (text : str) :
  main version_arg table_file results_dir now = (Returned 0, Some text) ->
  is_version (normalize_version version_arg) = true
  /\ exists updates,
      load_results results_dir = Ok updates
      /\ write_table (merged_rows version_arg table_file updates now)
         = Ok text
      /\ forall version,
          dict_get version (parse_table (Some text))
          = dict_get version (merged_rows version_arg table_file updates now).
Proof.
  intros H. apply main_returned in H.
  destruct H as (Hv & updates & text' & Hl & Hw & _ & E).
  inversion E; subst text'. split; [exact Hv|].
  exists updates. split; [exact Hl|]. split; [exact Hw|].
  apply parse_write; [| |exact Hw].
  - now apply merged_rows_versions_ok.
  - apply merged_rows_clean. now apply load_results_statuses_ok in Hl.
Qed.

Lemma merged_rows_other version_arg table_file (updates : table) now version :
  version <> normalize_version version_arg ->
  dict_get version (merged_rows version_arg table_file updates now)
  = dict_get version (parse_table table_file).
Proof. intros H. unfold merged_rows. now apply dict_get_set_neq. Qed.

(** The merged row when no result is loaded for the version. *)
Lemma merge_row_no_result (rows updates : table) (version : str)
      (now : datetime) :
  statuses_ok updates ->
  dict_get version updates = None ->
  merge_row rows updates version now
  = let p := fun platform =>
               dict_get_or platform $"not-run" (dict_get_or version [] rows) in
    mk_row (p $"linux") (p $"mac") (p $"windows") (p $"rockylinux8")
           (p $"ubuntu20.04") (strftime now).
Proof.
  intros Hs Hu. rewrite merge_row_shape by now apply statuses_ok_get.
  cbv zeta.
  assert (Eu : dict_get_or version [] updates = [])
    by (unfold dict_get_or; now rewrite Hu).
  rewrite Eu. reflexivity.
Qed.

(** C5, as the code has it: a table that is parsed and written is
    parsed again to the same rows, whatever the table: the same
    versions, each with the same statuses and time stamp.  After a run
    that returns, with no result loaded for the target version, every
    other version has the row it had; the target version keeps its
    statuses and gets the current time as its time stamp when it had a
    row, and when it had none the run adds a row for it, "not-run" five
    times and the time stamp. *)
Theorem C5_parse_write_roundtrip :
  (forall table_file text,
      write_table (parse_table table_file) = Ok text ->
      forall version,
        dict_get version (parse_table (Some text))
        = dict_get version (parse_table table_file))
  /\ (forall version_arg table_file results_dir now updates text,
         main version_arg table_file results_dir now
         = (Returned 0, Some text) ->
         load_results results_dir = Ok updates ->
         dict_get (normalize_version version_arg) updates = None ->
         (forall version,
             version <> normalize_version version_arg ->
             dict_get version (parse_table (Some text))
             = dict_get version (parse_table table_file))
         /\ (forall existing,
                dict_get (normalize_version version_arg)
                         (parse_table table_file) = Some existing ->
                exists s1 s2 s3 s4 s5 ts,
                  existing = mk_row s1 s2 s3 s4 s5 ts
                  /\ dict_get (normalize_version version_arg)
                              (parse_table (Some text))
                     = Some (mk_row s1 s2 s3 s4 s5 (strftime now)))
         /\ (dict_get (normalize_version version_arg)
                      (parse_table table_file) = None ->
             dict_get (normalize_version version_arg)
                      (parse_table (Some text))
             = Some (mk_row $"not-run" $"not-run" $"not-run" $"not-run"
                            $"not-run" (strftime now)))).
Proof.
  split.
  - intros table_file text Hw.
    apply parse_write; [apply parse_table_versions_ok
                       |apply parse_table_clean|exact Hw].
  - intros version_arg table_file results_dir now updates text Hm Hl Hu.
    destruct (run_roundtrip version_arg table_file results_dir now text Hm)
      as (Hv & updates' & Hl' & Hw & Hr).
    assert (updates' = updates) by congruence. subst updates'.
    pose proof (load_results_statuses_ok _ _ Hl) as Hs.
    assert (Ht : dict_get (normalize_version version_arg)
                          (parse_table (Some text))
                 = Some (merge_row (parse_table table_file) updates
                                   (normalize_version version_arg) now)).
    { rewrite Hr. unfold merged_rows. apply dict_get_set_eq. }
    rewrite (merge_row_no_result _ _ _ _ Hs Hu) in Ht. cbv zeta in Ht.
    split; [|split].
    + intros version Hne. rewrite Hr. now apply merged_rows_other.
    + intros existing He.
      pose proof (@dict_get_Forall _ (fun kv => clean_row (snd kv)) _ _ _
                                   (parse_table_clean table_file) He)
        as (s1 & s2 & s3 & s4 & s5 & ts & E & _).
      simpl in E. exists s1, s2, s3, s4, s5, ts. split; [exact E|].
      rewrite Ht. f_equal.
      assert (Eb : dict_get_or (normalize_version version_arg) []
                               (parse_table table_file) = existing)
        by (unfold dict_get_or; now rewrite He).
      rewrite Eb, E. reflexivity.
    + intros He. rewrite Ht. f_equal.
      assert (Eb : dict_get_or (normalize_version version_arg) []
                               (parse_table table_file) = [])
        by (unfold dict_get_or; now rewrite He).
      rewrite Eb. reflexivity.
Qed.

Lemma C5_parse_write_witness :
  exists s1 s2 s3 s4 s5 ts,
    mk_row $"pass" $"fail" $"not-run" $"not-run" $"not-run"
           $"2025-01-01T00:00:00Z"
    = mk_row s1 s2 s3 s4 s5 ts
    /\ dict_get (normalize_version $"v1.2.3")
                (parse_table
                   (Some (join LF
                            (PREAMBLE ++ HEADER
                             ++ [$"| 1.10.0 | pass | not-run | not-run | not-run | not-run | 2025-02-02T00:00:00Z |";
                                 $"| 1.2.3 | pass | fail | not-run | not-run | not-run | 2026-11-04T06:05:09Z |"])
                          ++ LF)))
       = Some (mk_row s1 s2 s3 s4 s5
                      (strftime {| year := 2026; month := 11; day := 4;
                                   hour := 6; minute := 5; second := 9 |})).
Proof.
  refine (proj1 (proj2 (proj2 C5_parse_write_roundtrip $"v1.2.3"
              (Some $"| Codex version | linux | mac | last_tested_utc |
| --- | --- | --- | --- |
| 1.2.3 | PASS | fail | 2025-01-01T00:00:00Z |
| 1.10.0 | pass | | 2025-02-02T00:00:00Z |")
              (Some [Parsed (JObj [($"platform", JStr $"linux");
                                   ($"results", JObj [($"1.2.4", JStr $"pass")])])])
              {| year := 2026; month := 11; day := 4;
                 hour := 6; minute := 5; second := 9 |}
              [($"1.2.4", [($"linux", $"pass")])]
              _ _ _ _))
            (mk_row $"pass" $"fail" $"not-run" $"not-run" $"not-run"
                    $"2025-01-01T00:00:00Z") _);
    vm_compute; reflexivity.
Defined.

(** C5, as stated, fails: a run with no new results on a table that has
    no row for the target version writes a table with one version more:
    the set of rows is not reproduced. *)
Lemma C5_absent_target_adds_a_row :
  exists text,
    main $"2.0" (Some $"| Codex version | linux |
| --- | --- |
| 1.0 | pass |") None
         {| year := 2026; month := 11; day := 4;
            hour := 6; minute := 5; second := 9 |}
    = (Returned 0, Some text)
    /\ dict_get $"2.0" (parse_table (Some $"| Codex version | linux |
| --- | --- |
| 1.0 | pass |")) = None
    /\ dict_get $"2.0" (parse_table (Some text))
       = Some (mk_row $"not-run" $"not-run" $"not-run" $"not-run"
                      $"not-run" $"2026-11-04T06:05:09Z").
Proof.
  eexists. split; [vm_compute; reflexivity|].
  split; vm_compute; reflexivity.
Qed.

(** C9: a run changes no row but that of the normalized target
    version, whatever the artifacts hold for other versions: every
    other version has, in the rows handed to [write_table] and in the
    table that a run that returns has written, the row it had in the
    table before (and none if it had none). *)
Theorem C9_other_rows_unchanged
        version_arg table_file results_dir now text :
  main version_arg table_file results_dir now = (Returned 0, Some text) ->
  exists updates,
    load_results results_dir = Ok updates
    /\ write_table (merged_rows version_arg table_file updates now) = Ok text
    /\ forall version,
        version <> normalize_version version_arg ->
        dict_get version (merged_rows version_arg table_file updates now)
        = dict_get version (parse_table table_file)
        /\ dict_get version (parse_table (Some text))
           = dict_get version (parse_table table_file).
Proof.
  intros Hm.
  destruct (run_roundtrip version_arg table_file results_dir now text Hm)
    as (Hv & updates & Hl & Hw & Hr).
  exists updates. split; [exact Hl|]. split; [exact Hw|].
  intros version Hne. rewrite Hr.
  split; now apply merged_rows_other.
Qed.

Lemma C9_other_rows_witness :
  dict_get $"1.0"
    (parse_table
       (Some (join LF
                (PREAMBLE ++ HEADER
                 ++ [$"| 2.0 | pass | not-run | not-run | not-run | not-run | 2026-11-04T06:05:09Z |";
                     $"| 1.0 | pass | not-run | not-run | not-run | not-run |  |"])
              ++ LF)))
  = dict_get $"1.0" (parse_table (Some $"| Codex version | linux |
| 1.0 | pass |")).
Proof.
  destruct (C9_other_rows_unchanged $"2.0"
              (Some $"| Codex version | linux |
| 1.0 | pass |")
              (Some [Parsed (JObj [($"platform", JStr $"linux");
                                   ($"results", JObj [($"1.0", JStr $"fail");
                                                      ($"2.0", JStr $"pass")])])])
              {| year := 2026; month := 11; day := 4;
                 hour := 6; minute := 5; second := 9 |}
              (join LF
                (PREAMBLE ++ HEADER
                 ++ [$"| 2.0 | pass | not-run | not-run | not-run | not-run | 2026-11-04T06:05:09Z |";
                     $"| 1.0 | pass | not-run | not-run | not-run | not-run |  |"])
              ++ LF))
    as (updates & _ & _ & H); [vm_compute; reflexivity|].
  destruct (H $"1.0") as [_ H2]; [vm_compute; discriminate|].
  exact H2.
Defined.


(* ================================================================== *)
(** * Further properties of the script *)

(** ** The version pattern *)

Lemma split_cons_nonempty (sep : ascii) (s : str) :
  exists p ps, split sep s = p :: ps.
Proof.
  destruct s as [|c s]; simpl; [eauto|].
  destruct (Ascii.eqb c sep); [eauto|].
  destruct (split sep s); eauto.
Qed.

Lemma join_split (sep : ascii) (s : str) : join [sep] (split sep s) = s.
Proof.
  induction s as [|c s IH]; [reflexivity|]. simpl.
  destruct (Ascii.eqb c sep) eqn:E.
  - apply Ascii.eqb_eq in E. subst c.
    destruct (split_cons_nonempty sep s) as (p & ps & Es).
    rewrite Es in *. simpl in *. now rewrite IH.
  - destruct (split sep s) as [|l ls]; [simpl in IH; now subst|].
    destruct ls as [|l2 ls]; simpl in *; now rewrite <- IH.
Qed.

Lemma join_concat (sep : ascii) (p : str) (ps : list str) :
  join [sep] (p :: ps) = p ++ List.concat (map (cons sep) ps).
Proof.
  revert p. induction ps as [|q ps IH]; intros p.
  - simpl. now rewrite app_nil_r.
  - change (join [sep] (p :: q :: ps)) with (p ++ [sep] ++ join [sep] (q :: ps)).
    rewrite IH. reflexivity.
Qed.

Lemma lang_components_intro (ps : list str) :
  Forall digits ps ->
  lang (Star (Cat (Class (is_char ".")) (Plus (Class is_digit))))
       (List.concat (map (cons "."%char) ps)).
Proof.
  induction 1 as [|d ps Hd _ IH]; simpl; [constructor|].
  change ("."%char :: d ++ List.concat (map (cons "."%char) ps))
    with (("."%char :: d) ++ List.concat (map (cons "."%char) ps)).
  apply lang_star_app; [|exact IH].
  change ("."%char :: d) with (["."%char] ++ d).
  apply lang_cat; [now constructor | now apply lang_plus_class].
Qed.

(** X1: a string matches the version pattern exactly when splitting it
    at the dots gives two components or more, each of one digit or
    more. *)
Theorem X1_version_pattern (s : str) :
  is_version s = true
  <-> exists p q ps,
      split "." s = p :: q :: ps /\ Forall digits (p :: q :: ps).
Proof.
  split; [apply is_version_split|].
  intros (p & q & ps & E & H). apply is_version_lang.
  rewrite <- (join_split "." s), E, join_concat.
  inversion H as [|? ? Hp Hq]; subst.
  inversion Hq as [|? ? Hq1 Hps]; subst.
  unfold VERSION_RE. apply lang_cat; [now apply lang_plus_class|].
  unfold Plus at 1. cbn [List.concat map].
  change ("."%char :: q ++ List.concat (map (cons "."%char) ps))
    with (("."%char :: q) ++ List.concat (map (cons "."%char) ps)).
  apply lang_cat; [|now apply lang_components_intro].
  change ("."%char :: q) with (["."%char] ++ q).
  apply lang_cat; [now constructor | now apply lang_plus_class].
Qed.

(** ** How a run ends *)






Lemma py_int_raises (s : str) (e : exn) : py_int s = Raise e -> e = ValueError.
Proof.
  unfold py_int.
  destruct (match strip_by is_int_space s with
            | [] => None
            | c :: t =>
                if Ascii.eqb c "+" then int_literal t
                else if Ascii.eqb c "-"
                     then option_map Z.opp (int_literal t)
                     else int_literal (c :: t)
            end); [discriminate|].
  intros H. now inversion H.
Qed.

Lemma mapM_raises {A B : Type} (f : A -> result B) (l : list A) (e : exn) :
  mapM f l = Raise e -> Exists (fun a => f a = Raise e) l.
Proof.
  induction l as [|a l IH]; simpl; [discriminate|].
  destruct (f a) as [b|e'] eqn:E; simpl.
  - destruct (mapM f l) as [bs|e'']; simpl; [discriminate|].
    intros H. right. apply IH. exact H.
  - intros H. left. congruence.
Qed.

Lemma version_sort_key_raises (version : str) (e : exn) :
  version_sort_key version = Raise e -> e = ValueError.
Proof.
  intros H. apply mapM_raises in H. apply Exists_exists in H.
  destruct H as (part & _ & H). now apply py_int_raises in H.
Qed.

Lemma write_table_outcome (rows : table) :
  match write_table rows with
  | Ok _ => Forall (fun k => exists key, version_sort_key k = Ok key)
                   (dict_keys rows)
  | Raise e =>
      e = ValueError
      /\ Exists (fun k => version_sort_key k = Raise ValueError)
                (dict_keys rows)
  end.
Proof.
  unfold write_table, sorted_versions.
  destruct (mapM _ (dict_keys rows)) as [keyed|e] eqn:E; simpl.
  - apply mapM_ok in E. eapply Forall_impl; [|exact E].
    intros k [[key k'] H]. destruct (version_sort_key k) as [key0|e];
      [eauto | simpl in H; discriminate].
  - apply mapM_raises in E.
    assert (He : e = ValueError).
    { apply Exists_exists in E. destruct E as (k & _ & H). cbv beta in H.
      destruct (version_sort_key k) as [key|e'] eqn:Ek;
        [simpl in H; discriminate|].
      apply version_sort_key_raises in Ek. simpl in H. congruence. }
    subst e. split; [reflexivity|].
    eapply Exists_impl; [|exact E]. intros k H. cbv beta in H.
    destruct (version_sort_key k) as [key|e'] eqn:Ek;
      [simpl in H; discriminate|].
    apply version_sort_key_raises in Ek. now subst e'.
Qed.



(** ** What an artifact changes *)

Lemma load_file_no_results (payload : dict json) (updates : table) :
  (forall items, dict_get_or $"results" (JObj []) payload <> JObj items)
  \/ dict_get_or $"results" (JObj []) payload = JObj [] ->
  load_file updates (Parsed (JObj payload)) = Ok updates.
Proof.
  intros H. unfold load_file. destruct (negb _); [reflexivity|].
  destruct (dict_get_or $"results" (JObj []) payload) as [| | | | |items];
    try reflexivity.
  destruct H as [H|H]; [now destruct (H items)|].
  inversion H. reflexivity.
Qed.

(** X4: an artifact whose [results] field is absent, empty or not an
    object contributes nothing, whatever its platform: the updates and
    the whole run are those without the artifact. *)
Theorem X4_artifact_without_results (payload : dict json) :
  dict_get $"results" payload = None
  \/ dict_get $"results" payload = Some (JObj [])
  \/ (forall items, dict_get $"results" payload <> Some (JObj items)) ->
  (forall updates, load_file updates (Parsed (JObj payload)) = Ok updates)
  /\ (forall before after,
         load_results (Some (before ++ Parsed (JObj payload) :: after))
         = load_results (Some (before ++ after)))
  /\ (forall version_arg table_file before after now,
         main version_arg table_file
              (Some (before ++ Parsed (JObj payload) :: after)) now
         = main version_arg table_file (Some (before ++ after)) now).
Proof.
  intros H.
  assert (Hskip : forall updates,
             load_file updates (Parsed (JObj payload)) = Ok updates).
  { intros updates. apply load_file_no_results. unfold dict_get_or.
    destruct (dict_get $"results" payload) as [j|] eqn:E.
    - destruct H as [H|[H|H]]; [discriminate|right; congruence|].
      left. intros items ->. now apply (H items).
    - now right. }
  split; [exact Hskip|]. split.
  - intros. now apply load_results_skip.
  - intros. unfold main.
    now rewrite (load_results_skip _ before after Hskip).
Qed.

Lemma X4_artifact_without_results_witness :
  load_results
    (Some [Parsed (JObj [($"platform", JStr $"linux");
                         ($"results", JArr [JStr $"1.2.3"; JStr $"pass"])])])
  = Ok [].
Proof.
  refine (proj1 (proj2 (X4_artifact_without_results
            [($"platform", JStr $"linux");
             ($"results", JArr [JStr $"1.2.3"; JStr $"pass"])] _)) [] []).
  right. right. intros items. vm_compute. discriminate.
Defined.

Lemma load_entry_other_version (platform : str) (updates : table)
      (item : str * json) (version : str) :
  normalize_version (fst item) <> version ->
  dict_get version (load_entry platform updates item)
  = dict_get version updates.
Proof.
  destruct item as [v status]. unfold load_entry. simpl. intros H.
  destruct (negb _); [reflexivity|].
  apply dict_get_set_neq. congruence.
Qed.

Lemma load_entry_other_platform (platform : str) (updates : table)
      (item : str * json) (version other : str) :
  other <> platform ->
  dict_get other (dict_get_or version [] (load_entry platform updates item))
  = dict_get other (dict_get_or version [] updates).
Proof.
  destruct item as [v status]. unfold load_entry. simpl py_str. intros H.
  destruct (negb _); [reflexivity|].
  destruct (list_eq_dec ascii_dec (normalize_version v) version) as [<-|Hne].
  - rewrite dict_get_or_set_eq. now apply dict_get_set_neq.
  - unfold dict_get_or. rewrite dict_get_set_neq by congruence. reflexivity.
Qed.

Lemma load_entry_stored (platform : str) (updates : table)
      (version : str) (status : json) :
  is_version (normalize_version version) = true ->
  dict_get platform
           (dict_get_or (normalize_version version) []
                        (load_entry platform updates (version, status)))
  = Some (normalize_status status).
Proof.
  intros H. unfold load_entry. simpl py_str. rewrite H. cbn [negb].
  rewrite dict_get_or_set_eq. apply dict_get_set_eq.
Qed.

Lemma load_file_accepted (payload : dict json) (platform : str)
      (items : list (str * json)) (updates : table) :
  strip (py_str (dict_get_or $"platform" (JStr []) payload)) = platform ->
  In platform PLATFORMS ->
  dict_get_or $"results" (JObj []) payload = JObj items ->
  load_file updates (Parsed (JObj payload))
  = Ok (fold_left (load_entry platform) items updates).
Proof.
  intros Hp Hin Hr. unfold load_file. rewrite Hp, Hr.
  apply str_in_In in Hin. now rewrite Hin.
Qed.

(** X5: within an artifact and across the files in their order, the
    last entry for a version wins: when the last file is an artifact of
    a known platform whose results end with an entry for a version, no
    entry after it normalizing to the same version, the loaded status
    of that version and platform is the normalized status of that
    entry, whatever was loaded before. *)
Theorem X5_last_entry_wins
        (files : list file_content) (payload : dict json) (platform : str)
        (before after : list (str * json)) (version : str) (status : json)
        (loaded : table) :
  load_results (Some files) = Ok loaded ->
  strip (py_str (dict_get_or $"platform" (JStr []) payload)) = platform ->
  In platform PLATFORMS ->
  dict_get_or $"results" (JObj []) payload
  = JObj (before ++ (version, status) :: after) ->
  is_version (normalize_version version) = true ->
  Forall (fun item => normalize_version (fst item) <> normalize_version version)
         after ->
  exists updates,
    load_results (Some (files ++ [Parsed (JObj payload)])) = Ok updates
    /\ dict_get platform
                (dict_get_or (normalize_version version) [] updates)
       = Some (normalize_status status).
Proof.
  intros Hl Hp Hin Hr Hv Ha.
  unfold load_results in *. rewrite foldM_app, Hl. cbn [bind foldM].
  rewrite (load_file_accepted payload platform _ loaded Hp Hin Hr).
  cbn [bind]. eexists. split; [reflexivity|].
  rewrite fold_left_app. cbn [fold_left].
  set (u := load_entry platform (fold_left (load_entry platform) before loaded)
                       (version, status)).
  assert (Hu : dict_get platform
                 (dict_get_or (normalize_version version) [] u)
               = Some (normalize_status status))
    by (now apply load_entry_stored).
  clearbody u. clear Hr. revert u Hu.
  induction Ha as [|item after Hi _ IH]; intros u Hu; [exact Hu|].
  cbn [fold_left]. apply IH. unfold dict_get_or in *.
  now rewrite load_entry_other_version.
Qed.

Lemma X5_last_entry_wins_witness :
  exists updates,
    load_results
      (Some ([Parsed (JObj [($"platform", JStr $"mac");
                            ($"results", JObj [($"2.0", JStr $"pass")])])]
             ++ [Parsed (JObj [($"platform", JStr $" mac ");
                               ($"results",
                                JObj [($"v2.0", JStr $"pass");
                                      ($"2.0", JStr $"Fail");
                                      ($"2.1", JStr $"pass")])])]))
    = Ok updates
    /\ dict_get $"mac" (dict_get_or (normalize_version $"2.0") [] updates)
       = Some (normalize_status (JStr $"Fail")).
Proof.
  apply (X5_last_entry_wins
           [Parsed (JObj [($"platform", JStr $"mac");
                          ($"results", JObj [($"2.0", JStr $"pass")])])]
           [($"platform", JStr $" mac ");
            ($"results", JObj [($"v2.0", JStr $"pass");
                               ($"2.0", JStr $"Fail");
                               ($"2.1", JStr $"pass")])]
           $"mac" [($"v2.0", JStr $"pass")] [($"2.1", JStr $"pass")]
           $"2.0" (JStr $"Fail") [($"2.0", [($"mac", $"pass")])]);
    try (vm_compute; reflexivity).
  - vm_compute. tauto.
  - repeat constructor. vm_compute. discriminate.
Defined.

(** X6: an artifact changes the statuses of its own platform only:
    whatever it holds, every other platform keeps, for every version,
    the status loaded before it (and none if it had none). *)
Theorem X6_artifact_touches_its_platform_only
        (payload : dict json) (updates updates' : table) :
  load_file updates (Parsed (JObj payload)) = Ok updates' ->
  forall version other,
    other <> strip (py_str (dict_get_or $"platform" (JStr []) payload)) ->
    dict_get other (dict_get_or version [] updates')
    = dict_get other (dict_get_or version [] updates).
Proof.
  intros H version other Hne. unfold load_file in H.
  destruct (negb _); [now inversion H|].
  destruct (dict_get_or $"results" (JObj []) payload) as [| | | | |items];
    try (now inversion H).
  inversion H as [E]. clear H E.
  revert updates. induction items as [|item items IH]; intros updates;
    [reflexivity|].
  cbn [fold_left]. rewrite IH. now apply load_entry_other_platform.
Qed.

Lemma X6_artifact_platform_witness :
  dict_get $"linux"
           (dict_get_or $"1.2.3" []
              (fold_left (load_entry $"mac") [($"1.2.3", JStr $"fail")]
                         [($"1.2.3", [($"linux", $"pass")])]))
  = Some $"pass".
Proof.
  refine (eq_trans
            (X6_artifact_touches_its_platform_only
               [($"platform", JStr $"mac");
                ($"results", JObj [($"1.2.3", JStr $"fail")])]
               [($"1.2.3", [($"linux", $"pass")])] _ _
               $"1.2.3" $"linux" _) _).
  - vm_compute. reflexivity.
  - vm_compute. discriminate.
  - vm_compute. reflexivity.
Defined.

(** ** What a line of the table changes *)

Lemma parse_line_add (columns : list str) (rows : table) (line : str) :
  columns <> [] ->
  parse_line (columns, rows) line = (columns, add_line columns rows line).
Proof.
  intros Hc. unfold parse_line, add_line, row_of_line.
  destruct (startswith $"|" line); cbn [negb andb]; [|reflexivity].
  destruct (List.length (line_parts line) <? 2); cbn [negb andb];
    [reflexivity|].
  destruct columns as [|c cs]; [congruence|].
  destruct (forallb _ (line_parts line)); cbn [negb andb]; [reflexivity|].
  now destruct (is_version (row_version _)).
Qed.

Lemma parse_lines_add (columns : list str) (rows : table) (lines : list str) :
  columns <> [] ->
  fold_left parse_line lines (columns, rows)
  = (columns, fold_left (add_line columns) lines rows).
Proof.
  intros Hc. revert rows.
  induction lines as [|line lines IH]; intros rows; [reflexivity|].
  cbn [fold_left]. rewrite parse_line_add by exact Hc. apply IH.
Qed.

(** X7: once the header is read the columns stay as they are, and of
    several rows for one version the last one wins: after a line that
    gives a row for a version, followed by lines that give none for it,
    the version has that row, whatever the lines before held. *)
Theorem X7_last_row_wins
        (columns : list str) (rows : table) (before after : list str)
        (line : str) (version : str) (r : row) :
  columns <> [] ->
  row_of_line columns line = Some (version, r) ->
  Forall (fun l => forall r', row_of_line columns l <> Some (version, r'))
         after ->
  fst (fold_left parse_line (before ++ line :: after) (columns, rows))
  = columns
  /\ dict_get version
              (snd (fold_left parse_line (before ++ line :: after)
                              (columns, rows)))
     = Some r.
Proof.
  intros Hc Hl Ha. rewrite parse_lines_add by exact Hc.
  split; [reflexivity|]. cbn [snd].
  rewrite fold_left_app. cbn [fold_left].
  set (rows1 := add_line columns (fold_left (add_line columns) before rows) line).
  assert (H1 : dict_get version rows1 = Some r).
  { unfold rows1, add_line. rewrite Hl. apply dict_get_set_eq. }
  clearbody rows1. revert rows1 H1.
  induction Ha as [|l after Hn _ IH]; intros rows1 H1; [exact H1|].
  cbn [fold_left]. apply IH. unfold add_line.
  destruct (row_of_line columns l) as [[v r']|] eqn:E; [|exact H1].
  rewrite dict_get_set_neq; [exact H1|].
  intros ->. now apply (Hn r').
Qed.

Lemma X7_last_row_wins_witness :
  dict_get $"1.2.3"
           (snd (fold_left parse_line
                           ([$"| 1.2.3 | pass |"] ++ $"| v1.2.3 | FAIL |"
                            :: [$"| 1.2.4 | pass |"])
                           ([$"Codex version"; $"linux"], [])))
  = Some (mk_row $"fail" $"not-run" $"not-run" $"not-run" $"not-run" []).
Proof.
  refine (proj2 (X7_last_row_wins [$"Codex version"; $"linux"] []
                   [$"| 1.2.3 | pass |"] [$"| 1.2.4 | pass |"]
                   $"| v1.2.3 | FAIL |" $"1.2.3"
                   (mk_row $"fail" $"not-run" $"not-run" $"not-run"
                           $"not-run" []) _ _ _)).
  - discriminate.
  - vm_compute. reflexivity.
  - repeat constructor. intros r'. vm_compute. discriminate.
Defined.

(** X8: every row that [parse_table] gives is under a version that
    matches the pattern and has exactly the five platforms and
    [last_tested_utc], in this order; each status is not empty, in
    lower case and without surrounding whitespace (an empty or missing
    cell reads "not-run"), and the time stamp is stripped. *)
Theorem X8_parsed_rows_are_complete (table_file : option str)
        (version : str) (r : row) :
  dict_get version (parse_table table_file) = Some r ->
  is_version version = true
  /\ exists s1 s2 s3 s4 s5 ts,
      r = mk_row s1 s2 s3 s4 s5 ts
      /\ Forall (fun s => s <> [] /\ lower s = s /\ strip s = s)
                [s1; s2; s3; s4; s5]
      /\ strip ts = ts.
Proof.
  intros H. split.
  - destruct (parse_table_versions_ok table_file) as [_ Hv].
    apply Forall_keys in Hv.
    exact (@dict_get_Forall _ (fun kv => is_version (fst kv) = true)
                            _ _ _ Hv H).
  - pose proof (@dict_get_Forall _ (fun kv => clean_row (snd kv)) _ _ _
                                 (parse_table_clean table_file) H)
      as (s1 & s2 & s3 & s4 & s5 & ts & E & H1 & H2 & H3 & H4 & H5 & Ht).
    exists s1, s2, s3, s4, s5, ts. split; [exact E|]. split.
    + repeat constructor;
        match goal with
        | Hs : clean_status ?s |- ?s <> [] => exact (proj2 (proj2 Hs))
        | Hs : clean_status ?s |- lower ?s = ?s => exact (proj1 (proj2 Hs))
        | Hs : clean_status ?s |- strip ?s = ?s => exact (proj1 (proj1 Hs))
        end.
    + exact (proj1 Ht).
Qed.

Lemma X8_parsed_rows_witness :
  exists s1 s2 s3 s4 s5 ts,
    mk_row $"pass" $"not-run" $"not-run" $"not-run" $"not-run" $"today"
    = mk_row s1 s2 s3 s4 s5 ts
    /\ Forall (fun s => s <> [] /\ lower s = s /\ strip s = s)
              [s1; s2; s3; s4; s5]
    /\ strip ts = ts.
Proof.
  refine (proj2 (X8_parsed_rows_are_complete
                   (Some $"| last_tested_utc | Codex version | linux | mac |
| today | v0.9 |  PASS ||")
                   $"0.9"
                   (mk_row $"pass" $"not-run" $"not-run" $"not-run"
                           $"not-run" $"today") _)).
  vm_compute. reflexivity.
Defined.

(** ** Writing again what was written *)

Lemma fold_set_fresh {V : Type} (g : str -> V) (order : list str)
      (acc : dict V) :
  NoDup order ->
  (forall v, In v order -> ~ In v (dict_keys acc)) ->
  fold_left (fun acc v => dict_set v (g v) acc) order acc
  = acc ++ map (fun v => (v, g v)) order.
Proof.
  intros Hn. revert acc.
  induction Hn as [|v order Hv _ IH]; intros acc Hf; simpl.
  - now rewrite app_nil_r.
  - rewrite dict_set_fresh by (apply Hf; now left).
    rewrite IH.
    + now rewrite <- app_assoc.
    + intros v' Hin. unfold dict_keys. rewrite map_app, in_app_iff. simpl.
      intros [H|[H|[]]].
      * apply (Hf v'); [now right | exact H].
      * subst v'. contradiction.
Qed.

(** The table read back from what [write_table] wrote: the rows, in the
    order written. *)
Lemma parse_written (rows : table) (order : list str) (text : str) :
  versions_ok rows -> clean_rows rows ->
  sorted_versions rows = Ok order ->
  write_table rows = Ok text ->
  parse_table (Some text)
  = map (fun version => (version, dict_get_or version [] rows)) order.
Proof.
  intros Hv Hc Eo Hw.
  destruct (sorted_versions_spec rows order Eo) as [Hp _].
  rewrite (write_table_text rows order Eo) in Hw.
  assert (Et : join LF
                    (PREAMBLE ++ HEADER
                     ++ map (fun version =>
                               table_line version (dict_get_or version [] rows))
                            order)
               ++ LF = text) by congruence.
  clear Hw. subst text.
  assert (Ho : Forall (fun version =>
                         is_version version = true
                         /\ clean_row (dict_get_or version [] rows)) order).
  { apply Forall_forall. intros v Hin.
    apply (Permutation_in _ (Permutation_sym Hp)) in Hin.
    destruct Hv as [_ Hv]. rewrite Forall_forall in Hv.
    split; [now apply Hv | now apply rows_get]. }
  unfold parse_table. rewrite splitlines_join.
  2:{ discriminate. }
  2:{ rewrite app_assoc. apply Forall_app. split; [apply header_no_break|].
      apply Forall_map. eapply Forall_impl; [|exact Ho].
      intros v [H1 H2]. now apply table_line_no_break. }
  rewrite app_assoc, fold_left_app, parse_header.
  rewrite parse_table_lines by exact Ho. cbn [snd].
  rewrite fold_set_fresh; [reflexivity| |intros v _ []].
  destruct Hv as [Hn _]. exact (Permutation_NoDup Hp Hn).
Qed.

Lemma sorted_desc_id {A : Type} (l : list (list Z * A)) :
  StronglySorted key_ge l -> sorted_desc l = l.
Proof.
  induction 1 as [|x l Hl IH Hx]; [reflexivity|].
  simpl. rewrite IH. destruct l as [|y l]; [reflexivity|].
  simpl. inversion Hx as [|? ? Hxy _]; subst.
  unfold key_ge, tuple_ge in Hxy. now rewrite Hxy.
Qed.

Lemma mapM_decorated {A K : Type} (f : A -> result K) (l : list (K * A)) :
  Forall (fun ka => f (snd ka) = Ok (fst ka)) l ->
  mapM (fun a => key <- f a ;; Ok (key, a)) (map snd l) = Ok l.
Proof.
  induction 1 as [|[k a] l Hk _ IH]; [reflexivity|].
  simpl in *. rewrite Hk. simpl. now rewrite IH.
Qed.

(** Versions already in the order of the sort stay in it. *)
Lemma sorted_versions_again (rows rows' : table) (order : list str) :
  sorted_versions rows = Ok order ->
  dict_keys rows' = order ->
  sorted_versions rows' = Ok order.
Proof.
  unfold sorted_versions. intros H Hk.
  destruct (mapM _ (dict_keys rows)) as [keyed|e] eqn:E; [|discriminate].
  cbn [bind] in H. assert (Eo : map snd (sorted_desc keyed) = order) by congruence.
  destruct (mapM_keyed _ _ _ E) as [_ Hf].
  assert (Hs : Forall (fun ka => version_sort_key (snd ka) = Ok (fst ka))
                      (sorted_desc keyed))
    by (eapply Permutation_Forall; [apply sorted_desc_perm | exact Hf]).
  rewrite Hk, <- Eo. rewrite (mapM_decorated version_sort_key _ Hs).
  cbn [bind]. now rewrite sorted_desc_id by apply sorted_desc_sorted.
Qed.

Lemma dict_keys_map {V : Type} (g : str -> V) (order : list str) :
  dict_keys (map (fun v => (v, g v)) order) = order.
Proof.
  unfold dict_keys. rewrite map_map. simpl. apply map_id.
Qed.

(** What was written is written again as it is. *)
Lemma write_parse_write (rows : table) (text : str) :
  versions_ok rows -> clean_rows rows ->
  write_table rows = Ok text ->
  write_table (parse_table (Some text)) = Ok text.
Proof.
  intros Hv Hc Hw.
  destruct (write_table_inv rows text Hw) as [order Eo].
  pose proof (parse_written rows order text Hv Hc Eo Hw) as Ep.
  assert (Eo' : sorted_versions (parse_table (Some text)) = Ok order).
  { apply (sorted_versions_again rows); [exact Eo|].
    rewrite Ep. apply dict_keys_map. }
  rewrite (write_table_text _ order Eo').
  rewrite (write_table_text rows order Eo) in Hw. rewrite <- Hw.
  do 5 f_equal. apply map_ext. intros v. f_equal.
  unfold dict_get_or. rewrite (parse_write rows text Hv Hc); [reflexivity|].
  now rewrite (write_table_text rows order Eo).
Qed.

(** X9: a table that the script wrote is written again as it is, byte
    for byte, when it is parsed and written with no merge in between:
    parse-then-write brings every table text to a form that it leaves
    unchanged. *)
Theorem X9_written_table_is_stable (table_file : option str) (text : str) :
  write_table (parse_table table_file) = Ok text ->
  write_table (parse_table (Some text)) = Ok text.
Proof.
  apply write_parse_write;
    [apply parse_table_versions_ok | apply parse_table_clean].
Qed.

Lemma X9_written_table_witness :
  write_table
    (parse_table
       (Some (join LF
                   (PREAMBLE ++ HEADER
                    ++ [$"| 1.10.0 | pass | fail | not-run | not-run | not-run | t |";
                        $"| 1.9.0 | pass | pass | not-run | not-run | not-run |  |"])
              ++ LF)))
  = Ok (join LF
             (PREAMBLE ++ HEADER
              ++ [$"| 1.10.0 | pass | fail | not-run | not-run | not-run | t |";
                  $"| 1.9.0 | pass | pass | not-run | not-run | not-run |  |"])
        ++ LF).
Proof.
  apply (X9_written_table_is_stable
           (Some $"some notes
| Codex version | mac | linux | last_tested_utc |
|---|---|---|---|
| v1.9.0 | Pass | PASS |
| 1.10.0 | FAIL | pass | t | extra |")).
  vm_compute. reflexivity.
Defined.

Lemma dict_set_same {V : Type} (k : str) (v : V) (d : dict V) :
  dict_get k d = Some v -> dict_set k v d = d.
Proof.
  induction d as [|[k0 v0] d IH]; simpl; [discriminate|].
  destruct (str_eqb k k0) eqn:E.
  - apply str_eqb_eq in E. subst k0. intros H. now inversion H.
  - intros H. now rewrite IH.
Qed.

Lemma merged_status_again (base loaded : row) (ts platform : str) :
  In platform PLATFORMS ->
  let m := merged_status base loaded in
  merged_status
    (mk_row (m $"linux") (m $"mac") (m $"windows") (m $"rockylinux8")
            (m $"ubuntu20.04") ts)
    loaded platform
  = m platform.
Proof.
  intros Hp m. unfold merged_status at 1.
  destruct (dict_get platform loaded) as [s|] eqn:E.
  - unfold m, merged_status. now rewrite E.
  - unfold PLATFORMS in Hp. simpl in Hp.
    repeat (destruct Hp as [Hp|Hp]; [subst platform; reflexivity|]).
    contradiction.
Qed.

(** X10: a run is idempotent: run again on the table it wrote, with the
    same version, the same results directory and the same clock, the
    script writes the same table, byte for byte. *)
Theorem X10_run_is_idempotent
        version_arg table_file results_dir now (text : str) :
  main version_arg table_file results_dir now = (Returned 0, Some text) ->
  main version_arg (Some text) results_dir now = (Returned 0, Some text).
Proof.
  intros H. apply main_returned in H.
  destruct H as (Hv & updates & text' & Hl & Hw & _ & E).
  inversion E; subst text'. clear E.
  pose proof (load_results_statuses_ok _ _ Hl) as Hs.
  pose proof (merged_rows_versions_ok version_arg table_file updates now Hv)
    as Hok.
  pose proof (merged_rows_clean version_arg table_file updates now Hs) as Hc.
  set (version := normalize_version version_arg) in *.
  set (merged := merge_row (parse_table table_file) updates version now).
  assert (Hg : dict_get version (parse_table (Some text)) = Some merged).
  { rewrite (parse_write _ text Hok Hc Hw). unfold merged_rows.
    apply dict_get_set_eq. }
  assert (Hm : merge_row (parse_table (Some text)) updates version now
               = merged).
  { unfold merged. rewrite !merge_row_shape by now apply statuses_ok_get.
    cbv zeta.
    assert (Eb : dict_get_or version [] (parse_table (Some text)) = merged)
      by (unfold dict_get_or; now rewrite Hg).
    rewrite Eb. unfold merged.
    rewrite merge_row_shape by now apply statuses_ok_get. cbv zeta.
    rewrite !merged_status_again by (unfold PLATFORMS; simpl; tauto).
    reflexivity. }
  assert (Hr : merged_rows version_arg (Some text) updates now
               = parse_table (Some text)).
  { unfold merged_rows. fold version. rewrite Hm. now apply dict_set_same. }
  unfold main. fold version. rewrite Hv, Hl. cbn [negb]. rewrite Hr.
  now rewrite (write_parse_write _ text Hok Hc Hw).
Qed.

Lemma X10_run_is_idempotent_witness :
  main $"v1.10.0"
       (Some (join LF
                (PREAMBLE ++ HEADER
                 ++ [$"| 1.10.0 | fail | not-run | not-run | not-run | not-run | 2026-11-04T06:05:09Z |";
                     $"| 1.9.0 | pass | not-run | not-run | not-run | not-run |  |"])
              ++ LF))
       (Some [Parsed (JObj [($"platform", JStr $"linux");
                            ($"results", JObj [($"1.10.0", JStr $"broken")])])])
       {| year := 2026; month := 11; day := 4;
          hour := 6; minute := 5; second := 9 |}
  = (Returned 0,
     Some (join LF
             (PREAMBLE ++ HEADER
              ++ [$"| 1.10.0 | fail | not-run | not-run | not-run | not-run | 2026-11-04T06:05:09Z |";
                  $"| 1.9.0 | pass | not-run | not-run | not-run | not-run |  |"])
           ++ LF)).
Proof.
  apply (X10_run_is_idempotent $"v1.10.0"
           (Some $"| Codex version | linux |
| 1.9.0 | pass |")).
  vm_compute. reflexivity.
Defined.

Lemma dict_set_length {V : Type} (k : str) (v : V) (d : dict V) :
  List.length (dict_set k v d)
  = match dict_get k d with
    | Some _ => List.length d
    | None => S (List.length d)
    end.
Proof.
  induction d as [|[k0 v0] d IH]; simpl; [reflexivity|].
  destruct (str_eqb k k0); simpl; [reflexivity|].
  rewrite IH. now destruct (dict_get k d).
Qed.

(** X11: the table that a run that returns has written, read back, is
    the merged rows in the order written: the target version has its
    merged row (new statuses and time stamp included), no version of
    the old table is lost, and the table has one row more exactly when
    the target version had none. *)
Theorem X11_run_writes_the_merged_rows
        version_arg table_file results_dir now text :
  main version_arg table_file results_dir now = (Returned 0, Some text) ->
  let version := normalize_version version_arg in
  exists updates order,
    load_results results_dir = Ok updates
    /\ sorted_versions (merged_rows version_arg table_file updates now)
       = Ok order
    /\ parse_table (Some text)
       = map (fun v =>
                (v, dict_get_or v []
                      (merged_rows version_arg table_file updates now)))
             order
    /\ dict_get version (parse_table (Some text))
       = Some (merge_row (parse_table table_file) updates version now)
    /\ (forall v r,
           dict_get v (parse_table table_file) = Some r ->
           exists r', dict_get v (parse_table (Some text)) = Some r')
    /\ List.length (parse_table (Some text))
       = match dict_get version (parse_table table_file) with
         | Some _ => List.length (parse_table table_file)
         | None => S (List.length (parse_table table_file))
         end.
Proof.
  intros Hm version.
  destruct (run_roundtrip version_arg table_file results_dir now text Hm)
    as (Hv & updates & Hl & Hw & Hg).
  pose proof (merged_rows_versions_ok version_arg table_file updates now Hv)
    as Hok.
  pose proof (merged_rows_clean version_arg table_file updates now
                (load_results_statuses_ok _ _ Hl)) as Hc.
  destruct (write_table_inv _ text Hw) as [order Eo].
  destruct (sorted_versions_spec _ order Eo) as [Hp _].
  pose proof (parse_written _ order text Hok Hc Eo Hw) as Ep.
  exists updates, order. repeat split; try assumption.
  - rewrite Hg. apply dict_get_set_eq.
  - intros v r Hr. rewrite Hg. unfold merged_rows.
    destruct (list_eq_dec ascii_dec v (normalize_version version_arg))
      as [->|Hne].
    + rewrite dict_get_set_eq. eauto.
    + rewrite dict_get_set_neq by exact Hne. eauto.
  - rewrite Ep, length_map, <- (Permutation_length Hp).
    unfold dict_keys. rewrite length_map. apply dict_set_length.
Qed.

Lemma X11_run_writes_witness :
  exists updates order,
    load_results
      (Some [Parsed (JObj [($"platform", JStr $"mac");
                           ($"results", JObj [($"v2.0", JStr $"PASS")])])])
    = Ok updates
    /\ parse_table
         (Some (join LF
                  (PREAMBLE ++ HEADER
                   ++ [$"| 2.0 | not-run | pass | not-run | not-run | not-run | 2026-11-04T06:05:09Z |";
                       $"| 1.0 | pass | not-run | not-run | not-run | not-run |  |"])
                ++ LF))
       = map (fun v =>
                (v, dict_get_or v []
                      (merged_rows $"2.0" (Some $"| Codex version | linux |
| 1.0 | pass |") updates
                                   {| year := 2026; month := 11; day := 4;
                                      hour := 6; minute := 5; second := 9 |})))
             order.
Proof.
  destruct (X11_run_writes_the_merged_rows $"2.0"
              (Some $"| Codex version | linux |
| 1.0 | pass |")
              (Some [Parsed (JObj [($"platform", JStr $"mac");
                                   ($"results", JObj [($"v2.0", JStr $"PASS")])])])
              {| year := 2026; month := 11; day := 4;
                 hour := 6; minute := 5; second := 9 |}
              (join LF
                 (PREAMBLE ++ HEADER
                  ++ [$"| 2.0 | not-run | pass | not-run | not-run | not-run | 2026-11-04T06:05:09Z |";
                      $"| 1.0 | pass | not-run | not-run | not-run | not-run |  |"])
               ++ LF))
    as (updates & order & Hl & _ & Hp & _); [vm_compute; reflexivity|].
  exists updates, order. split; [exact Hl | exact Hp].
Defined.




(** ** When [write_table] raises *)

Lemma mapM_raise_first {A B : Type} (f : A -> result B) (l : list A)
      (e : exn) :
  (forall a e', f a = Raise e' -> e' = e) ->
  Exists (fun a => f a = Raise e) l -> mapM f l = Raise e.
Proof.
  intros Hf H. induction H as [a l Ha|a l _ IH]; simpl.
  - now rewrite Ha.
  - destruct (f a) as [b|e'] eqn:E; simpl.
    + now rewrite IH.
    + now rewrite (Hf a e' E).
Qed.

(** X13: [write_table] raises only [ValueError], and exactly when some
    key of the rows has no sort key, which is when [int] rejects one of
    the components between its dots; for a key that matches the version
    pattern this is when a component has more than 4300 digits.  When
    every key has a sort key the table is written. *)
Theorem X13_write_table_raises_on_bad_keys (rows : table) :
  (forall e, write_table rows = Raise e -> e = ValueError)
  /\ (write_table rows = Raise ValueError
      <-> Exists (fun k => version_sort_key k = Raise ValueError)
                 (dict_keys rows))
  /\ ((exists text, write_table rows = Ok text)
      <-> Forall (fun k => exists key, version_sort_key k = Ok key)
                 (dict_keys rows))
  /\ (forall k,
         version_sort_key k = Raise ValueError
         <-> Exists (fun part => py_int part = Raise ValueError)
                    (split "." k))
  /\ (forall k,
         is_version k = true ->
         version_sort_key k = Raise ValueError
         <-> Exists (fun part =>
                       (MAX_STR_DIGITS < Z.of_nat (List.length part))%Z)
                    (split "." k)).
Proof.
  assert (Hkey : forall k,
             version_sort_key k = Raise ValueError
             <-> Exists (fun part => py_int part = Raise ValueError)
                        (split "." k)).
  { intros k. split; [apply mapM_raises|].
    apply mapM_raise_first. apply py_int_raises. }
  pose proof (write_table_outcome rows) as H.
  split; [|split; [|split; [|split]]].
  - intros e He. rewrite He in H. now destruct H.
  - split.
    + intros He. rewrite He in H. now destruct H.
    + intros Hx. destruct (write_table rows) as [text|e] eqn:E.
      * exfalso. apply Exists_exists in Hx. destruct Hx as (k & Hin & Hk).
        rewrite Forall_forall in H. destruct (H k Hin) as [key Hkey'].
        congruence.
      * now destruct H as [-> _].
  - split.
    + intros [text Ht]. now rewrite Ht in H.
    + intros Hf. destruct (write_table rows) as [text|e] eqn:E; [eauto|].
      exfalso. destruct H as [_ Hx].
      apply Exists_exists in Hx. destruct Hx as (k & Hin & Hk).
      rewrite Forall_forall in Hf. destruct (Hf k Hin) as [key Hkey'].
      congruence.
  - exact Hkey.
  - intros k Hv. rewrite Hkey.
    destruct (is_version_split _ Hv) as (p & q & ps & E & Hd).
    rewrite E. split; intros Hx; apply Exists_exists in Hx;
      destruct Hx as (part & Hin & Hp); apply Exists_exists;
      exists part; (split; [exact Hin|]);
      rewrite Forall_forall in Hd;
      destruct (py_int_on_digits part (Hd part Hin)) as (z & _ & Ez).
    + rewrite Ez in Hp.
      destruct (MAX_STR_DIGITS <? _)%Z eqn:L; [|discriminate].
      now apply Z.ltb_lt in L.
    + rewrite Ez. apply Z.ltb_lt in Hp. now rewrite Hp.
Qed.

Lemma X13_write_table_raises_witness :
  write_table [($"1.0", []); ($"1..2", [])] = Raise ValueError.
Proof.
  apply (proj2 (proj1 (proj2 (X13_write_table_raises_on_bad_keys
                                [($"1.0", []); ($"1..2", [])])))).
  apply Exists_cons_tl, Exists_cons_hd. vm_compute. reflexivity.
Defined.

Lemma X1_version_pattern_witness :
  exists p q ps,
    split "." $"10.0.27" = p :: q :: ps /\ Forall digits (p :: q :: ps).
Proof.
  apply (proj1 (X1_version_pattern $"10.0.27")). vm_compute. reflexivity.
Defined.
